(** * gophernotes wire messages: the codec and signer of [messages.go]

    A shallow embedding of [messages.go] (package [main]) and of the small
    part of the Go runtime and libraries it calls, followed by the
    properties of the decoder [WireMsgToComposedMsg], the encoder
    [ToWireMsg], the dispatcher [SendResponse] and the response builder
    [NewMsg]. *)

From Stdlib Require Import ZArith NArith Ascii String.
From stdpp Require Import base tactics option list strings gmap.

Set Default Proof Using "Type".

(** ** Go runtime *)

(** A [[]byte] and a Go [string] are both sequences of 8-bit values; the
    conversion [string(b)] copies them.  A [[]byte] that is only read is
    kept as the list of its bytes (a nil one and an empty one have the same
    length and contents and are not told apart); the slices that are
    indexed, resliced or written are [Go.slice]s. *)
Abbreviation bytes := (list ascii).

Definition string_of_bytes (b : bytes) : string := string_of_list_ascii b.
Definition bytes_of_string (s : string) : bytes := list_ascii_of_string s.

Module Go.

(** Run-time panics raised by the bounds checks of indexing and slicing. *)
Inductive panic : Type :=
| IndexOutOfRange (i len : nat)
| SliceBoundsOutOfRange (hi cap : nat).

(** How a call ends: it returns, it panics, or the process exits
    ([os.Exit], reached through [log.Fatalln]). *)
Inductive outcome (A : Type) : Type :=
| Ret (a : A)
| Panic (p : panic)
| Exit (code : nat).
Arguments Ret {A} a.
Arguments Panic {A} p.
Arguments Exit {A} code.

Definition bind {A B} (f : A → outcome B) (m : outcome A) : outcome B :=
  match m with
  | Ret a => f a
  | Panic p => Panic p
  | Exit c => Exit c
  end.

(** The panic a call ended with, if it did. *)
Definition panicked {A} (m : outcome A) : option panic :=
  match m with
  | Panic p => Some p
  | _ => None
  end.

(** A slice: the elements below its length, and the elements of the
    backing array between its length and its capacity. *)
Record slice (A : Type) : Type := Slice { elems : list A; spare : list A }.
Arguments Slice {A} elems spare.
Arguments elems {A} s.
Arguments spare {A} s.

Section slices.
Context {A : Type}.

Definition backing (s : slice A) : list A := elems s ++ spare s.
Definition len (s : slice A) : nat := length (elems s).
Definition cap (s : slice A) : nat := length (backing s).

(** [make([]T, n)]: [n] zero values, no spare capacity. *)
Definition make (zero : A) (n : nat) : slice A := Slice (replicate n zero) [].

(** [s[i]] as a value: checked against the length. *)
Definition index (s : slice A) (i : nat) : outcome A :=
  match elems s !! i with
  | Some x => Ret x
  | None => Panic (IndexOutOfRange i (len s))
  end.

(** [s[i] = x]: checked against the length. *)
Definition store (s : slice A) (i : nat) (x : A) : outcome (slice A) :=
  if decide (i < len s) then Ret (Slice (<[i:=x]> (elems s)) (spare s))
  else Panic (IndexOutOfRange i (len s)).

(** [s[lo:hi]]: checked against the capacity, so that it can reach
    into the spare elements. *)
Definition reslice (s : slice A) (lo hi : nat) : outcome (slice A) :=
  if decide (hi ≤ cap s) then
    if decide (lo ≤ hi) then
      Ret (Slice (take (hi - lo) (drop lo (backing s))) (drop hi (backing s)))
    else Panic (SliceBoundsOutOfRange lo hi)
  else Panic (SliceBoundsOutOfRange hi (cap s)).

(** A slice holding exactly the given elements. *)
Definition of_list (l : list A) : slice A := Slice l [].
End slices.

End Go.

Import Go.

#[global] Instance outcome_ret : MRet outcome := @Ret.
#[global] Instance outcome_bind : MBind outcome := @Go.bind.
#[global] Instance outcome_fmap : FMap outcome := λ A B f, Go.bind (λ a, Ret (f a)).

(** ** Errors *)

(** The [error] values that reach this file: its own
    [InvalidSignatureError], the wrapper of [errors.Wrap], the two errors of
    [encoding/hex], and errors of the other libraries, kept by their text. *)
Inductive error : Type :=
| InvalidSignatureError
| Wrapped (cause : error) (message : string)
| ErrLength
| InvalidByteError (b : ascii)
| LibError (description : string).

Definition errors_Wrap (err : error) (message : string) : error := Wrapped err message.

(** ** Bytes as numbers *)

Definition byte_val (b : ascii) : N := N_of_ascii b.
(** Conversion to [byte] keeps the low eight bits. *)
Definition to_byte (n : N) : ascii := ascii_of_N (n mod 256).
Definition zero_byte : ascii := "000"%char.

(** ** encoding/hex *)

Module hex.

Definition hextable : bytes := bytes_of_string "0123456789abcdef"%string.

Definition EncodedLen (n : nat) : nat := n * 2.
Definition DecodedLen (x : nat) : nat := x / 2.

Definition digit (n : N) : ascii := nth (N.to_nat n) hextable zero_byte.

(** [Encode(dst, src)]: two digits per source byte, written from the start
    of [dst]. *)
Fixpoint Encode_from (dst : slice ascii) (src : bytes) (j : nat) : outcome (slice ascii) :=
  match src with
  | [] => Ret dst
  | v :: src' =>
      dst ← store dst j (digit (N.shiftr (byte_val v) 4));
      dst ← store dst (j + 1) (digit (N.land (byte_val v) 15));
      Encode_from dst src' (j + 2)
  end.

Definition Encode (dst : slice ascii) (src : bytes) : outcome (slice ascii) :=
  Encode_from dst src 0.

(** [reverseHexTable]: the value of a hexadecimal digit of either case. *)
Definition fromHexChar (c : ascii) : option N :=
  let n := byte_val c in
  if ((48 <=? n) && (n <=? 57))%N then Some (n - 48)%N
  else if ((97 <=? n) && (n <=? 102))%N then Some (n - 97 + 10)%N
  else if ((65 <=? n) && (n <=? 70))%N then Some (n - 65 + 10)%N
  else None.

(** [Decode(dst, src)]: pairs of digits are decoded in order into [dst];
    the first bad digit, or a single digit left at the end, stops the
    decoding with an error and leaves what was written.  The result is the
    buffer, the number of bytes written and the error.  (Releases of the
    library before 1.10 test for an odd length first and then write
    nothing; on an even number of digits the releases agree.) *)
Fixpoint Decode_from (dst : slice ascii) (src : bytes) (i : nat)
  : outcome (slice ascii * nat * option error) :=
  match src with
  | [] => Ret (dst, i, None)
  | [p] =>
      match fromHexChar p with
      | None => Ret (dst, i, Some (InvalidByteError p))
      | Some _ => Ret (dst, i, Some ErrLength)
      end
  | p :: q :: src' =>
      match fromHexChar p, fromHexChar q with
      | None, _ => Ret (dst, i, Some (InvalidByteError p))
      | Some _, None => Ret (dst, i, Some (InvalidByteError q))
      | Some a, Some b =>
          dst ← store dst i (to_byte (N.lor (N.shiftl a 4) b));
          Decode_from dst src' (S i)
      end
  end.

Definition Decode (dst : slice ascii) (src : bytes) : outcome (slice ascii * nat * option error) :=
  Decode_from dst src 0.

End hex.

(** ** crypto/subtle and crypto/hmac *)

Module subtle.

(** [ConstantTimeByteEq(x, y) = int((uint32(x^y) - 1) >> 31)], with the
    subtraction wrapping at 32 bits. *)
Definition ConstantTimeByteEq (x y : N) : Z :=
  Z.shiftr ((Z.of_N (N.lxor x y) - 1) mod 2 ^ 32) 31.

(** The loop of [ConstantTimeCompare]: every position is visited, the
    differences are or-ed into [v]; the second component counts the
    iterations. *)
Fixpoint compare_loop (x y : bytes) (v : N) (steps : nat) : N * nat :=
  match x, y with
  | a :: x', b :: y' =>
      compare_loop x' y' (N.lor v (N.lxor (byte_val a) (byte_val b))) (S steps)
  | _, _ => (v, steps)
  end.

Definition ConstantTimeCompare_steps (x y : bytes) : Z * nat :=
  if decide (length x = length y) then
    let '(v, steps) := compare_loop x y 0%N 0 in (ConstantTimeByteEq v 0, steps)
  else (0%Z, 0).

Definition ConstantTimeCompare (x y : bytes) : Z := fst (ConstantTimeCompare_steps x y).

End subtle.

Module hmac.
(** [hmac.Equal]. *)
Definition Equal (mac1 mac2 : bytes) : bool :=
  bool_decide (subtle.ConstantTimeCompare mac1 mac2 = 1%Z).
End hmac.

(** ** The libraries outside this package *)

(** [encoding/json] on one Go type: [Marshal] returns the encoding or an
    error; [Unmarshal data &v] updates [v] in place and may report an error,
    leaving in [v] whatever it had stored by then. *)
Class JSON (T : Type) : Type := {
  Marshal : T → error + bytes;
  Unmarshal : bytes → T → T * option error
}.

(** MsgHeader encodes header info for ZMQ messages. *)
Record MsgHeader : Type := mkMsgHeader {
  MsgID : string;
  Username : string;
  Session : string;
  MsgType : string
}.

(** What [messages.go] takes from outside: the values an [interface{}] can
    hold, [encoding/json] at the three types it is used at, and HMAC-SHA256
    ([hmac.New(sha256.New, key)] fed a message and summed), whose sums have
    the 32 bytes of [mac.Size()]. *)
Class Lib : Type := {
  any : Type;
  any_nil : any;
  json_MsgHeader :: JSON MsgHeader;
  json_map :: JSON (option (gmap string any));
  json_any :: JSON any;
  hmac_sha256 : bytes → bytes → bytes;
  hmac_sha256_Size : ∀ key message, length (hmac_sha256 key message) = 32
}.

Module hash.
(** The [hash.Hash] made by [hmac.New(sha256.New, key)]: the key and the
    bytes written so far. *)
Record Hash : Type := mkHash { key : bytes; written : bytes }.

Definition New (signkey : bytes) : Hash := mkHash signkey [].
Definition Write (h : Hash) (p : bytes) : Hash := mkHash (key h) (written h ++ p).
Definition Sum `{Lib} (h : Hash) (b : bytes) : bytes := b ++ hmac_sha256 (key h) (written h).
Definition Size : nat := 32.
End hash.

(** ** The data of [messages.go] *)

Section data.
Context `{L : Lib}.

(** ComposedMsg represents an entire message in a high-level structure.
    A nil [Metadata] map is [None]; [make(map[string]interface{})] is
    [Some ∅]. *)
Record ComposedMsg : Type := mkComposedMsg {
  Header : MsgHeader;
  ParentHeader : MsgHeader;
  Metadata : option (gmap string any);
  Content : any
}.

(** Zero values, as [var msg ComposedMsg] gives them. *)
Definition zero_MsgHeader : MsgHeader := mkMsgHeader "" "" "" "".
Definition zero_ComposedMsg : ComposedMsg :=
  mkComposedMsg zero_MsgHeader zero_MsgHeader None any_nil.

(** Modelled from the spec: [SocketGroup] is declared outside
    [messages.go]; of it, this file reads only [Key], the signing key
    shared by verify and sign (a byte sequence, possibly empty). *)
Record SocketGroup : Type := mkSocketGroup { Key : bytes }.

(** MsgReceipt represents a received message, its return identities, and
    the sockets for communication. *)
Record MsgReceipt : Type := mkMsgReceipt {
  Msg : ComposedMsg;
  Identities : slice bytes;
  Sockets : SocketGroup
}.
End data.

Arguments ComposedMsg : clear implicits.
Arguments ComposedMsg {L}.
Arguments MsgReceipt {L}.

(** The delimiter frame. *)
Definition delimiter : string := "<IDS|MSG>".

(** The nil slice. *)
Definition nil_slice {A} : slice A := Slice [] [].

(** ** Decoding *)

Section decode.
Context `{L : Lib}.

(** [i := 0; for string(msgparts[i]) != "<IDS|MSG>" { i++ }], run on the
    elements from index [i] on: the index expression panics when [i]
    reaches the length. *)
Fixpoint scan_delimiter (len : nat) (rest : list bytes) (i : nat) : outcome nat :=
  match rest with
  | [] => Panic (IndexOutOfRange i len)
  | part :: rest' =>
      if decide (string_of_bytes part ≠ delimiter) then scan_delimiter len rest' (S i)
      else Ret i
  end.

(** [mac := hmac.New(sha256.New, signkey)] and the [mac.Write] of every
    part, in order. *)
Definition mac_of (signkey : bytes) (parts : list bytes) : hash.Hash :=
  foldl hash.Write (hash.New signkey) parts.

(** The body of [if len(signkey) != 0 { ... }] up to its test: [true]
    when [hmac.Equal] rejects the signature. *)
Definition signature_rejected (msgparts : slice bytes) (signkey : bytes) (i : nat)
  : outcome bool :=
  window ← reslice msgparts (i + 2) (i + 6);
  let mac := mac_of signkey (elems window) in
  sigpart ← index msgparts (i + 1);
  let signature := make zero_byte (hex.DecodedLen (length sigpart)) in
  '(signature, _, _) ← hex.Decode signature sigpart;
  mret (negb (hmac.Equal (hash.Sum mac []) (elems signature))).

(** WireMsgToComposedMsg translates a multipart ZMQ messages received from
    a socket into a ComposedMsg struct and a slice of return identities.
    This includes verifying the message signature. *)
Definition WireMsgToComposedMsg (msgparts : slice bytes) (signkey : bytes)
  : outcome (ComposedMsg * slice bytes * option error) :=
  i ← scan_delimiter (len msgparts) (elems msgparts) 0;
  identities ← reslice msgparts 0 i;
  let msg := zero_ComposedMsg in
  rejected ← (if decide (length signkey ≠ 0) then signature_rejected msgparts signkey i
              else mret false);
  if (rejected : bool) then mret (msg, nil_slice, Some InvalidSignatureError)
  else
    part ← index msgparts (i + 2);
    let header := (Unmarshal part (Header msg)).1 in
    part ← index msgparts (i + 3);
    let parentHeader := (Unmarshal part (ParentHeader msg)).1 in
    part ← index msgparts (i + 4);
    let metadata := (Unmarshal part (Metadata msg)).1 in
    part ← index msgparts (i + 5);
    let content := (Unmarshal part (Content msg)).1 in
    mret (mkComposedMsg header parentHeader metadata content, identities, None).
End decode.

(** ** Encoding *)

Section encode.
Context `{L : Lib}.

Definition with_Metadata (msg : ComposedMsg) (metadata : option (gmap string any)) : ComposedMsg :=
  mkComposedMsg (Header msg) (ParentHeader msg) metadata (Content msg).

(** [msgparts[0] = make([]byte, hex.EncodedLen(mac.Size()));
    hex.Encode(msgparts[0], mac.Sum(nil))], for the [mac] of
    [msgparts[1:]]. *)
Definition sign (msgparts : slice bytes) (signkey : bytes) : outcome (slice bytes) :=
  rest ← reslice msgparts 1 (len msgparts);
  let mac := mac_of signkey (elems rest) in
  signature ← hex.Encode (make zero_byte (hex.EncodedLen hash.Size)) (hash.Sum mac []);
  store msgparts 0 (elems signature).

(** The body of [ToWireMsg], run on the receiver variable [msg]: its
    result is the final value of that variable and the two results of the
    method.  An error is returned with the parts filled so far. *)
Definition ToWireMsg_body (signkey : bytes) (msg : ComposedMsg)
  : outcome (ComposedMsg * (slice bytes * option error)) :=
  let msgparts := make ([] : bytes) 5 in
  match Marshal (Header msg) with
  | inl err => mret (msg, (msgparts, Some (errors_Wrap err "Could not marshal message header")))
  | inr header =>
  msgparts ← store msgparts 1 header;
  match Marshal (ParentHeader msg) with
  | inl err => mret (msg, (msgparts, Some (errors_Wrap err "Could not marshal parent header")))
  | inr parentHeader =>
  msgparts ← store msgparts 2 parentHeader;
  let msg := if Metadata msg is None then with_Metadata msg (Some ∅) else msg in
  match Marshal (Metadata msg) with
  | inl err => mret (msg, (msgparts, Some (errors_Wrap err "Could not marshal metadata")))
  | inr metadata =>
  msgparts ← store msgparts 3 metadata;
  match Marshal (Content msg) with
  | inl err => mret (msg, (msgparts, Some (errors_Wrap err "Could not marshal content")))
  | inr content =>
  msgparts ← store msgparts 4 content;
  msgparts ← (if decide (length signkey ≠ 0) then sign msgparts signkey else mret msgparts);
  mret (msg, (msgparts, None))
  end end end end.

(** A call of a method declared with a value receiver, [func (x T) m(...)]:
    the body runs on a copy of the caller's value, which the caller keeps;
    with a pointer receiver, [func (x *T) m(...)], the caller's value is
    the one the body leaves.  The first component of the result is the
    caller's value after the call. *)
Definition call_value_receiver {T R} (body : T → outcome (T * R)) (x : T) : outcome (T * R) :=
  '(_, r) ← body x; mret (x, r).
Definition call_pointer_receiver {T R} (body : T → outcome (T * R)) (x : T) : outcome (T * R) :=
  body x.

(** ToWireMsg translates a ComposedMsg into a multipart ZMQ message ready
    to send, and signs it. This does not add the return identities or the
    delimiter.  It is declared [func (msg ComposedMsg) ToWireMsg]. *)
Definition ToWireMsg_call (msg : ComposedMsg) (signkey : bytes)
  : outcome (ComposedMsg * (slice bytes * option error)) :=
  call_value_receiver (ToWireMsg_body signkey) msg.

Definition ToWireMsg (msg : ComposedMsg) (signkey : bytes) : outcome (slice bytes * option error) :=
  snd <$> ToWireMsg_call msg signkey.
End encode.

(** ** The world around a call: transport, logs, randomness *)

Section world.
Context `{L : Lib}.

(** A [*zmq.Socket], by the name of the socket it points to. *)
Definition Socket : Type := nat.

(** [zmq.SNDMORE], the flag for "more frames follow". *)
Definition zmq_SNDMORE : N := 2.

(** The calls that leave this file.  The transport ([*zmq.Socket]), the
    standard logger and the package variable [logger], declared outside
    [messages.go], are collaborators: a call is recorded with its
    arguments, and its result is dropped as the source drops it. *)
Inductive event : Type :=
| SendMultipart (socket : Socket) (parts : list bytes) (flags : N)
| Send (socket : Socket) (data : bytes) (flags : N)
| LogFatalln (err : error)
| LoggerPrintln (args : list string)
| LoggerPrintf (format : string) (arg : any).

(** The trace of calls so far, and the source of [crypto/rand]: what its
    [k]-th [Read] leaves in the buffer, byte by byte, and the error it
    reports. *)
Record World : Type := mkWorld {
  trace : list event;
  rand_calls : nat;
  rand_source : nat → (nat → ascii) * option error
}.

Definition M (A : Type) : Type := World → outcome A * World.

Definition M_ret {A} (a : A) : M A := λ w, (Ret a, w).
Definition M_bind {A B} (f : A → M B) (m : M A) : M B := λ w,
  match m w with
  | (Ret a, w') => f a w'
  | (Panic p, w') => (Panic p, w')
  | (Exit c, w') => (Exit c, w')
  end.
Definition lift {A} (m : outcome A) : M A := λ w, (m, w).

Definition emit (e : event) : M () := λ w,
  (Ret (), mkWorld (trace w ++ [e]) (rand_calls w) (rand_source w)).

Definition socket_SendMultipart (socket : Socket) (parts : slice bytes) (flags : N) : M () :=
  emit (SendMultipart socket (elems parts) flags).
Definition socket_Send (socket : Socket) (data : bytes) (flags : N) : M () :=
  emit (Send socket data flags).
Definition logger_Println (args : list string) : M () := emit (LoggerPrintln args).
Definition logger_Printf (format : string) (arg : any) : M () := emit (LoggerPrintf format arg).

(** [log.Fatalln(err)]: the error is logged and the process exits with
    status 1. *)
Definition log_Fatalln {A} (err : error) : M A := λ w,
  (Exit 1, mkWorld (trace w ++ [LogFatalln err]) (rand_calls w) (rand_source w)).

(** [rand.Read(b)] on a buffer of [n] bytes. *)
Definition rand_Read (n : nat) : M (bytes * option error) := λ w,
  let '(fill, err) := rand_source w (rand_calls w) in
  (Ret (fill <$> seq 0 n, err), mkWorld (trace w) (S (rand_calls w)) (rand_source w)).
End world.

#[global] Instance M_mret `{Lib} : MRet M := @M_ret _.
#[global] Instance M_mbind `{Lib} : MBind M := @M_bind _.

(** ** github.com/nu7hatch/gouuid *)

Module uuid.

(** A [UUID] is a [[16]byte], held as the list of its bytes.  The reserved
    variants, as the package declares them. *)
Definition ReservedNCS : N := 128.
Definition ReservedRFC4122 : N := 64.
Definition ReservedMicrosoft : N := 32.

Definition at_ (u : bytes) (i : nat) : N := byte_val (nth i u zero_byte).

Definition setVariant (u : bytes) (v : N) : bytes :=
  if decide (v = ReservedNCS) then
    <[8 := to_byte (N.land (N.lor (at_ u 8) ReservedNCS) 191)]> u
  else if decide (v = ReservedRFC4122) then
    <[8 := to_byte (N.land (N.lor (at_ u 8) ReservedRFC4122) 127)]> u
  else if decide (v = ReservedMicrosoft) then
    <[8 := to_byte (N.land (N.lor (at_ u 8) ReservedMicrosoft) 63)]> u
  else u.

Definition setVersion (u : bytes) (v : N) : bytes :=
  <[6 := to_byte (N.lor (N.land (at_ u 6) 15) (N.shiftl v 4))]> u.

(** [NewV4]: sixteen random bytes, then the variant and the version. *)
Definition NewV4 `{Lib} : M (bytes * option error) :=
  '(u, err) ← rand_Read 16;
  if err is Some _ then mret (u, err)
  else
    let u := setVariant u ReservedRFC4122 in
    let u := setVersion u 4 in
    mret (u, None).

(** The verb [%x] on a byte slice: two lower-case digits per byte. *)
Definition fmt_x (b : bytes) : bytes :=
  b ≫= λ v, [hex.digit (N.shiftr (byte_val v) 4); hex.digit (N.land (byte_val v) 15)].

Definition dash : bytes := bytes_of_string "-".

(** [fmt.Sprintf("%x-%x-%x-%x-%x", u[0:4], u[4:6], u[6:8], u[8:10], u[10:])] *)
Definition String (u : bytes) : string :=
  string_of_bytes
    (fmt_x (take 4 u) ++ dash ++ fmt_x (take 2 (drop 4 u)) ++ dash ++
     fmt_x (take 2 (drop 6 u)) ++ dash ++ fmt_x (take 2 (drop 8 u)) ++ dash ++
     fmt_x (drop 10 u)).

End uuid.

(** ** Sending and building responses *)

Section respond.
Context `{L : Lib}.

(** The format ["%+v\n"]: the verb and a line feed. *)
Definition format_v : string := "%+v" +:+ String (ascii_of_nat 10) "".

(** SendResponse sends a message back to return identites of the received
    message. *)
Definition SendResponse (receipt : MsgReceipt) (socket : Socket) (msg : ComposedMsg) : M () :=
  socket_SendMultipart socket (Identities receipt) zmq_SNDMORE;;
  socket_Send socket (bytes_of_string "<IDS|MSG>") zmq_SNDMORE;;
  '(msgParts, err) ← lift (ToWireMsg msg (Key (Sockets receipt)));
  (if err is Some e then log_Fatalln e else mret ());;
  socket_SendMultipart socket msgParts 0;;
  logger_Println ["<--"; MsgType (Header msg)];;
  logger_Printf format_v (Content msg).

Definition with_MsgID (h : MsgHeader) (id : string) : MsgHeader :=
  mkMsgHeader id (Username h) (Session h) (MsgType h).
Definition with_Username (h : MsgHeader) (username : string) : MsgHeader :=
  mkMsgHeader (MsgID h) username (Session h) (MsgType h).
Definition with_Session (h : MsgHeader) (session : string) : MsgHeader :=
  mkMsgHeader (MsgID h) (Username h) session (MsgType h).
Definition with_MsgType (h : MsgHeader) (msgType : string) : MsgHeader :=
  mkMsgHeader (MsgID h) (Username h) (Session h) msgType.
Definition with_Header (msg : ComposedMsg) (h : MsgHeader) : ComposedMsg :=
  mkComposedMsg h (ParentHeader msg) (Metadata msg) (Content msg).
Definition with_ParentHeader (msg : ComposedMsg) (h : MsgHeader) : ComposedMsg :=
  mkComposedMsg (Header msg) h (Metadata msg) (Content msg).

(** NewMsg creates a new ComposedMsg to respond to a parent message. This
    includes setting up its headers. *)
Definition NewMsg (msgType : string) (parent : ComposedMsg) : M ComposedMsg :=
  let msg := zero_ComposedMsg in
  let msg := with_ParentHeader msg (Header parent) in
  let msg := with_Header msg (with_Session (Header msg) (Session (Header parent))) in
  let msg := with_Header msg (with_Username (Header msg) (Username (Header parent))) in
  let msg := with_Header msg (with_MsgType (Header msg) msgType) in
  '(u, err) ← uuid.NewV4;
  (if err is Some e then log_Fatalln (errors_Wrap e "Could not generate UUID") else mret ());;
  let msg := with_Header msg (with_MsgID (Header msg) (uuid.String u)) in
  mret msg.
End respond.

(** ** Vocabulary of the statements *)

(** The frame that stops the scan, and a sequence without such a frame. *)
Definition delimiter_part : bytes := bytes_of_string delimiter.
Definition no_delimiter (parts : list bytes) : Prop :=
  Forall (λ part, string_of_bytes part ≠ delimiter) parts.

(** What [hex.Decode] leaves in the buffer [signature] of the decoder. *)
Definition decoded_signature (sigpart : bytes) : bytes :=
  match hex.Decode (make zero_byte (hex.DecodedLen (length sigpart))) sigpart with
  | Ret (signature, _, _) => elems signature
  | _ => []
  end.

(** The MAC of the four frames of the signed region, in their order. *)
Definition signed_region_mac `{Lib} (signkey header parentHeader metadata content : bytes) : bytes :=
  hmac_sha256 signkey (header ++ parentHeader ++ metadata ++ content).

(** The message that the four [json.Unmarshal] calls of the decoder build
    from the zero message, whatever errors they report. *)
Definition unmarshalled `{Lib} (header parentHeader metadata content : bytes) : ComposedMsg :=
  mkComposedMsg (Unmarshal header zero_MsgHeader).1 (Unmarshal parentHeader zero_MsgHeader).1
                (Unmarshal metadata None).1 (Unmarshal content any_nil).1.

(** The metadata that [ToWireMsg] encodes: the empty map for a nil one. *)
Definition encoded_Metadata `{Lib} (msg : ComposedMsg) : option (gmap string any) :=
  if Metadata msg is None then Some ∅ else Metadata msg.

(** The receiver variable of [ToWireMsg] once its metadata has been
    defaulted. *)
Definition defaulted `{Lib} (msg : ComposedMsg) : ComposedMsg :=
  if Metadata msg is None then with_Metadata msg (Some ∅) else msg.

(** The signature frame that [ToWireMsg] produces: the digits of the MAC,
    or the nil frame when the key is empty. *)
Definition signature_part `{Lib} (signkey header parentHeader metadata content : bytes) : bytes :=
  if decide (length signkey ≠ 0)
  then uuid.fmt_x (signed_region_mac signkey header parentHeader metadata content)
  else [].

(** A value that [encoding/json] encodes and decodes back from its zero
    value. *)
Definition round_trips {T} `{JSON T} (zero v : T) : Prop :=
  ∃ data, Marshal v = inr data ∧ (Unmarshal data zero).1 = v.

(** The UUID that [NewV4] makes of sixteen random bytes, and the bits of
    those bytes that it keeps: all but the high four of byte 6 and the high
    two of byte 8, 122 bits in all. *)
Definition v4_of (random : bytes) : bytes :=
  uuid.setVersion (uuid.setVariant random uuid.ReservedRFC4122) 4.
Definition kept_bits (random : bytes) : bytes :=
  <[6 := to_byte (N.land (uuid.at_ random 6) 15)]>
    (<[8 := to_byte (N.land (uuid.at_ random 8) 63)]> random).

(** The buffer that the [k]-th [rand.Read] of a world fills for [NewV4]. *)
Definition drawn `{Lib} (w : World) : bytes := (rand_source w (rand_calls w)).1 <$> seq 0 16.

(** The world after one more [rand.Read], and after more calls. *)
Definition after_draw `{Lib} (w : World) : World :=
  mkWorld (trace w) (S (rand_calls w)) (rand_source w).
Definition after_calls `{Lib} (w : World) (calls : list event) : World :=
  mkWorld (trace w ++ calls) (rand_calls w) (rand_source w).

(** The frames that the calls of a trace put on a socket, in their order. *)
Definition frames_sent `{Lib} (socket : Socket) (calls : list event) : list bytes :=
  calls ≫= λ call,
    match call with
    | SendMultipart s parts _ => if decide (s = socket) then parts else []
    | Send s data _ => if decide (s = socket) then [data] else []
    | _ => []
    end.

(** ** A reference implementation of the libraries *)

(** [crypto/sha256] and [crypto/hmac], after the generic block function of
    the Go library (FIPS 180-4, RFC 2104).  Words are 32-bit values held in
    [N], every sum reduced modulo [2^32]. *)
Module sha256.
Local Open Scope N_scope.

Definition u32 (x : N) : N := x mod 2 ^ 32.
Definition rotr (x k : N) : N := N.lor (N.shiftr x k) (u32 (N.shiftl x (32 - k))).
Definition compl (x : N) : N := N.lxor x 0xffffffff.

(** The first [n] primes, by trial division. *)
Fixpoint primes_from (fuel : nat) (n : nat) (k : N) (found : list N) : list N :=
  match fuel, n with
  | O, _ | _, O => found
  | S fuel', S n' =>
      if forallb (λ q, negb (k mod q =? 0)) found
      then primes_from fuel' n' (k + 1) (found ++ [k])
      else primes_from fuel' n (k + 1) found
  end.
Definition primes (n : nat) : list N := primes_from 400 n 2 [].

(** The largest [r] below [2 ^ bits] with [r ^ 3 <= x], bit by bit. *)
Fixpoint cube_root (bits : nat) (x r : N) : N :=
  match bits with
  | O => r
  | S bits' =>
      let r' := N.lor r (N.shiftl 1 (N.of_nat bits')) in
      cube_root bits' x (if r' * r' * r' <=? x then r' else r)
  end.

(** The round constants: the first 32 bits of the fractional parts of the
    cube roots of the first 64 primes. *)
Definition _K : list N :=
  Eval vm_compute in (λ q, u32 (cube_root 36 (q * 2 ^ 96) 0)) <$> primes 64.

Definition state : Type := N * N * N * N * N * N * N * N.

(** The initial hash value: the first 32 bits of the fractional parts of
    the square roots of the first 8 primes. *)
Definition init : state :=
  Eval vm_compute in
    match (λ q, u32 (N.sqrt (q * 2 ^ 64))) <$> primes 8 with
    | [a; b; c; d; e; f; g; h] => (a, b, c, d, e, f, g, h)
    | _ => (0, 0, 0, 0, 0, 0, 0, 0)
    end.

(** Four bytes, most significant first, as a word; and back. *)
Definition be_word (p : bytes) : N :=
  foldl (λ acc b, N.lor (N.shiftl acc 8) (byte_val b)) 0 p.
Definition be_bytes (n : nat) (x : N) : bytes :=
  (λ i, to_byte (N.shiftr x (8 * N.of_nat (n - 1 - i)))) <$> seq 0 n.

(** [w[i] = t1 + w[i-7] + t2 + w[i-16]] for the next [n] indices. *)
Fixpoint schedule (n : nat) (w : list N) : list N :=
  match n with
  | O => w
  | S n' =>
      let i := length w in
      let v1 := nth (i - 2) w 0 in
      let t1 := N.lxor (N.lxor (rotr v1 17) (rotr v1 19)) (N.shiftr v1 10) in
      let v2 := nth (i - 15) w 0 in
      let t2 := N.lxor (N.lxor (rotr v2 7) (rotr v2 18)) (N.shiftr v2 3) in
      schedule n' (w ++ [u32 (t1 + nth (i - 7) w 0 + t2 + nth (i - 16) w 0)])
  end.

Definition round (s : state) (kw : N * N) : state :=
  let '(a, b, c, d, e, f, g, h) := s in
  let t1 := u32 (h + N.lxor (N.lxor (rotr e 6) (rotr e 11)) (rotr e 25)
                   + N.lxor (N.land e f) (N.land (compl e) g) + kw.1 + kw.2) in
  let t2 := u32 (N.lxor (N.lxor (rotr a 2) (rotr a 13)) (rotr a 22)
                 + N.lxor (N.lxor (N.land a b) (N.land a c)) (N.land b c)) in
  (u32 (t1 + t2), a, b, c, u32 (d + t1), e, f, g).

Fixpoint words (n : nat) (p : bytes) : list N :=
  match n with
  | O => []
  | S n' => be_word (take 4 p) :: words n' (drop 4 p)
  end.

(** One 64-byte chunk. *)
Definition block (s : state) (p : bytes) : state :=
  let w := schedule 48 (words 16 p) in
  let '(a, b, c, d, e, f, g, h) := foldl round s (zip _K w) in
  let '(h0, h1, h2, h3, h4, h5, h6, h7) := s in
  (u32 (h0 + a), u32 (h1 + b), u32 (h2 + c), u32 (h3 + d),
   u32 (h4 + e), u32 (h5 + f), u32 (h6 + g), u32 (h7 + h)).

Fixpoint blocks (n : nat) (s : state) (p : bytes) : state :=
  match n with
  | O => s
  | S n' => blocks n' (block s (take 64 p)) (drop 64 p)
  end.

(** The message, a 1 bit, zeros up to 56 modulo 64, and the length in
    bits as 8 bytes. *)
Definition pad (msg : bytes) : bytes :=
  let n := length msg in
  msg ++ [to_byte 0x80] ++ replicate ((119 - n `mod` 64) `mod` 64)%nat zero_byte
      ++ be_bytes 8 (8 * N.of_nat n).

Definition digest (s : state) : bytes :=
  let '(h0, h1, h2, h3, h4, h5, h6, h7) := s in
  be_bytes 4 h0 ++ be_bytes 4 h1 ++ be_bytes 4 h2 ++ be_bytes 4 h3 ++
  be_bytes 4 h4 ++ be_bytes 4 h5 ++ be_bytes 4 h6 ++ be_bytes 4 h7.

Definition Sum256 (msg : bytes) : bytes :=
  let p := pad msg in digest (blocks (length p / 64)%nat init p).

(** A digest has [Size = 32] bytes. *)
Definition digest_Size (s : state) : length (digest s) = 32%nat :=
  let '(_, _, _, _, _, _, _, _) := s in eq_refl.

Definition xor_with (c : N) (key : bytes) : bytes :=
  (λ b, to_byte (N.lxor (byte_val b) c)) <$> key.

(** HMAC with a 64-byte block: a longer key is hashed first, a shorter
    one is padded with zeros. *)
Definition hmac (key message : bytes) : bytes :=
  let key := if decide (64 < length key)%nat then Sum256 key else key in
  let key := key ++ replicate (64 - length key)%nat zero_byte in
  Sum256 (xor_with 0x5c key ++ Sum256 (xor_with 0x36 key ++ message)).

Definition hmac_Size (key message : bytes) : length (hmac key message) = 32%nat :=
  digest_Size _.
End sha256.

(** [encoding/json] by test vectors: a finite table of values and their
    encodings, as the Go library produces and accepts them.  [Marshal] of a
    value outside the table is reported as unsupported; [Unmarshal] of bytes
    outside the table reports a syntax error and leaves the target as it
    was.  The model agrees with the library on its vectors and on input that
    is not JSON, and is used to run the code on these only. *)
Module vectors.

(** The values an [interface{}] holds in the vectors: nil, a [float64] with
    an integral value, a string, a [map[string]interface{}] of such numbers,
    and a channel, which has no JSON encoding. *)
Inductive value : Type :=
| Nil
| Float64 (n : Z)
| Str (s : string)
| NumMap (m : gmap string Z)
| Chan.

#[global] Instance value_eq_dec : EqDecision value.
Proof. solve_decision. Defined.
#[global] Instance MsgHeader_eq_dec : EqDecision MsgHeader.
Proof. solve_decision. Defined.

(** JSON text written with ['] for the double quote. *)
Definition json_text (s : string) : bytes :=
  (λ c, if decide (c = "'"%char) then ascii_of_nat 34 else c) <$> bytes_of_string s.

Definition table_Marshal {T} `{EqDecision T} (table : list (T * bytes)) (v : T) : error + bytes :=
  match list_find (λ row, row.1 = v) table with
  | Some (_, row) => inr row.2
  | None => inl (LibError "json: unsupported type")
  end.

Definition table_Unmarshal {T} (table : list (T * bytes)) (data : bytes) (target : T)
  : T * option error :=
  match list_find (λ row, row.2 = data) table with
  | Some (_, row) => (row.1, None)
  | None => (target, Some (LibError "invalid character looking for beginning of value"))
  end.

Definition table_JSON {T} `{EqDecision T} (table : list (T * bytes)) : JSON T :=
  {| Marshal := table_Marshal table; Unmarshal := table_Unmarshal table |}.

Definition header_a : MsgHeader := mkMsgHeader "a" "u" "s" "t".

Definition MsgHeader_vectors : list (MsgHeader * bytes) :=
  [ (mkMsgHeader "" "" "" "",
     json_text "{'msg_id':'','username':'','session':'','msg_type':''}");
    (header_a,
     json_text "{'msg_id':'a','username':'u','session':'s','msg_type':'t'}") ].

Definition map_vectors : list (option (gmap string value) * bytes) :=
  [ (Some ∅, json_text "{}");
    (None, json_text "null") ].

Definition any_vectors : list (value * bytes) :=
  [ (Nil, json_text "null");
    (NumMap {[ "x" := 1%Z ]}, json_text "{'x':1}");
    (Float64 1, json_text "1");
    (Str "ok", json_text "'ok'") ].

Definition reference : Lib :=
  {| any := value;
     any_nil := Nil;
     json_MsgHeader := table_JSON MsgHeader_vectors;
     json_map := table_JSON map_vectors;
     json_any := table_JSON any_vectors;
     hmac_sha256 := sha256.hmac;
     hmac_sha256_Size := sha256.hmac_Size |}.

End vectors.

(** ** Concrete messages, frames and worlds *)

Module examples.
Import vectors.

Definition client : bytes := bytes_of_string "client-1".
Definition s3cr3t : bytes := bytes_of_string "s3cr3t".

Definition header_a_json : bytes :=
  json_text "{'msg_id':'a','username':'u','session':'s','msg_type':'t'}".
Definition zero_header_json : bytes :=
  json_text "{'msg_id':'','username':'','session':'','msg_type':''}".
Definition empty_object : bytes := json_text "{}".
Definition x1_object : bytes := json_text "{'x':1}".
Definition garbage : bytes := bytes_of_string "garbage".

(** The message of the concrete vector: header [a/u/s/t], empty parent
    header, empty metadata, content [{x: 1}]. *)
Definition message_a : @ComposedMsg reference :=
  @mkComposedMsg reference header_a zero_MsgHeader (Some ∅) (NumMap {[ "x"%string := 1%Z ]}).

(** A message whose content is a channel. *)
Definition unencodable : @ComposedMsg reference :=
  @mkComposedMsg reference header_a zero_MsgHeader None Chan.

(** A parent whose id is the text of the UUID made from sixteen zero
    bytes. *)
Definition zero_uuid_parent : @ComposedMsg reference :=
  @mkComposedMsg reference (mkMsgHeader "00000000-0000-4000-4000-000000000000" "u" "s" "execute_request")
                zero_MsgHeader None Nil.

Definition receipt_a : @MsgReceipt reference :=
  @mkMsgReceipt reference message_a (of_list [client]) (mkSocketGroup s3cr3t).

(** A world whose random source gives zero bytes, and one whose random
    source fails. *)
Definition zeros_world : @World reference :=
  @mkWorld reference [] 0 (λ _, (λ _, zero_byte, None)).
Definition broken_world : @World reference :=
  @mkWorld reference [] 0 (λ _, (λ _, zero_byte, Some (LibError "unexpected EOF"))).

(** The signature frame of the concrete vector under the key [s3cr3t], the
    same frame with one more digit behind it, and the frames of the vector
    with and without a key. *)
Definition signature_a : bytes :=
  bytes_of_string "593aefe7b4afe56dcb3d75aadf2f434fdb6466d887c96bf18ff6ca3fa18a5f51".
Definition signature_a_and_one : bytes := signature_a ++ bytes_of_string "0".
Definition frames_a : slice bytes :=
  Slice [signature_a; header_a_json; zero_header_json; empty_object; x1_object] [].
Definition unsigned_frames_a : slice bytes :=
  Slice [[]; header_a_json; zero_header_json; empty_object; x1_object] [].
Definition another_key : bytes := bytes_of_string "an0ther".

(** The concrete vector as the decoder returns it behind one identity. *)
Definition identities_a : slice bytes := Slice [client] (delimiter_part :: elems frames_a).

(** The libraries with one more vector, the header of a reply whose id is
    made from zero bytes; a request and a world over them. *)
Definition reply_header : MsgHeader :=
  mkMsgHeader "00000000-0000-4000-4000-000000000000" "u" "s" "execute_reply".
Definition reply_header_json : bytes :=
  json_text "{'msg_id':'00000000-0000-4000-4000-000000000000','username':'u','session':'s','msg_type':'execute_reply'}".
Definition replying : Lib :=
  {| any := value;
     any_nil := Nil;
     json_MsgHeader := table_JSON ((reply_header, reply_header_json) :: MsgHeader_vectors);
     json_map := table_JSON map_vectors;
     json_any := table_JSON any_vectors;
     hmac_sha256 := sha256.hmac;
     hmac_sha256_Size := sha256.hmac_Size |}.
Definition request_r : @ComposedMsg replying :=
  @mkComposedMsg replying header_a zero_MsgHeader (Some ∅) Nil.
Definition reply_r : @ComposedMsg replying :=
  @mkComposedMsg replying reply_header header_a None Nil.
Definition zeros_world_r : @World replying :=
  @mkWorld replying [] 0 (λ _, (λ _, zero_byte, None)).

End examples.

(** * Facts about the runtime and the libraries *)

Section bytes_facts.

Lemma byte_val_lt (b : ascii) : (byte_val b < 256)%N.
Proof. apply N_ascii_bounded. Qed.

Lemma byte_val_inj (a b : ascii) : byte_val a = byte_val b → a = b.
Proof.
  intros E. rewrite <- (ascii_N_embedding a), <- (ascii_N_embedding b).
  unfold byte_val in E. by rewrite E.
Qed.

Lemma hex_digits_of_byte (v : ascii) :
  hex.fromHexChar (hex.digit (N.shiftr (byte_val v) 4)) = Some (N.shiftr (byte_val v) 4) ∧
  hex.fromHexChar (hex.digit (N.land (byte_val v) 15)) = Some (N.land (byte_val v) 15) ∧
  to_byte (N.lor (N.shiftl (N.shiftr (byte_val v) 4) 4) (N.land (byte_val v) 15)) = v.
Proof. destruct v as [[] [] [] [] [] [] [] []]; by vm_compute. Qed.

End bytes_facts.

Section slice_facts.
Context {A : Type}.
Implicit Types (s : slice A) (l : list A).

Lemma index_Some s i x : elems s !! i = Some x → index s i = Ret x.
Proof. unfold index. by intros ->. Qed.

Lemma store_lt s i x :
  i < len s → store s i x = Ret (Slice (<[i:=x]> (elems s)) (spare s)).
Proof. unfold store. intros H. by rewrite decide_True. Qed.

Lemma reslice_prefix s i :
  i ≤ len s → reslice s 0 i = Ret (Slice (take i (elems s)) (drop i (elems s) ++ spare s)).
Proof.
  unfold reslice, cap, backing, len. rewrite length_app. intros H.
  rewrite !decide_True by lia.
  by rewrite Nat.sub_0_r, drop_0, take_app_le, drop_app_le.
Qed.

Lemma store_at (pre : list A) a x post sp j :
  j = length pre →
  store (Slice (pre ++ a :: post) sp) j x = Ret (Slice (pre ++ x :: post) sp).
Proof.
  intros ->. unfold store, len; simpl.
  rewrite decide_True by (rewrite length_app; simpl; lia).
  rewrite insert_app_r_alt by done. by rewrite Nat.sub_diag.
Qed.

End slice_facts.

Section hex_facts.
Implicit Types (dst : slice ascii) (src pre junk post : bytes).

Lemma fmt_x_length src : length (uuid.fmt_x src) = 2 * length src.
Proof. induction src as [|v src IH]; simpl; [done|]. rewrite IH. lia. Qed.

(** [Encode] writes the digits of [src] over as many bytes of [dst]. *)
Lemma Encode_from_spec src : ∀ pre junk post sp,
  length junk = 2 * length src →
  hex.Encode_from (Slice (pre ++ junk ++ post) sp) src (length pre) =
  Ret (Slice (pre ++ uuid.fmt_x src ++ post) sp).
Proof.
  induction src as [|v src IH]; intros pre junk post sp H.
  - by destruct junk.
  - destruct junk as [|a [|b junk]]; simpl in H; try lia.
    set (d1 := hex.digit (N.shiftr (byte_val v) 4)).
    set (d2 := hex.digit (N.land (byte_val v) 15)).
    cbn [hex.Encode_from app]. fold d1 d2.
    rewrite (store_at pre a) by done. cbn [mbind outcome_bind bind].
    change (pre ++ d1 :: b :: junk ++ post) with (pre ++ [d1] ++ b :: junk ++ post).
    rewrite app_assoc, (store_at (pre ++ [d1]) b) by (rewrite length_app; simpl; lia).
    cbn [mbind outcome_bind bind].
    replace ((pre ++ [d1]) ++ d2 :: junk ++ post) with ((pre ++ [d1; d2]) ++ junk ++ post)
      by (by rewrite <- !app_assoc).
    replace (length pre + 2) with (length (pre ++ [d1; d2])) by (by rewrite length_app).
    rewrite IH by lia. by rewrite <- app_assoc.
Qed.

Lemma Encode_fresh src :
  hex.Encode (make zero_byte (hex.EncodedLen (length src))) src =
  Ret (of_list (uuid.fmt_x src)).
Proof.
  unfold hex.Encode, make, hex.EncodedLen.
  pose proof (Encode_from_spec src [] (replicate (length src * 2) zero_byte) [] []) as E.
  simpl in E. rewrite !app_nil_r in E. apply E. rewrite length_replicate. lia.
Qed.

(** [Decode] inverts [Encode]. *)
Lemma Decode_from_fmt_x src : ∀ pre junk post sp,
  length junk = length src →
  hex.Decode_from (Slice (pre ++ junk ++ post) sp) (uuid.fmt_x src) (length pre) =
  Ret (Slice (pre ++ src ++ post) sp, length pre + length src, None).
Proof.
  induction src as [|v src IH]; intros pre junk post sp H.
  - destruct junk; [|done]. simpl. by rewrite Nat.add_0_r.
  - destruct junk as [|a junk]; simpl in H; [lia|].
    destruct (hex_digits_of_byte v) as (E1 & E2 & E3).
    cbn [uuid.fmt_x mbind list_bind app hex.Decode_from].
    change (mbind ?f src) with (uuid.fmt_x src).
    rewrite E1, E2, E3.
    rewrite (store_at pre a) by done. cbn [mbind outcome_bind bind].
    replace (pre ++ v :: junk ++ post) with ((pre ++ [v]) ++ junk ++ post)
      by (by rewrite <- app_assoc).
    replace (S (length pre)) with (length (pre ++ [v])) by (rewrite length_app; simpl; lia).
    rewrite IH by lia. rewrite <- app_assoc, length_app. simpl.
    do 3 f_equal. lia.
Qed.

Lemma Decode_fresh src :
  hex.Decode (make zero_byte (hex.DecodedLen (length (uuid.fmt_x src)))) (uuid.fmt_x src) =
  Ret (of_list src, length src, None).
Proof.
  unfold hex.Decode, make, hex.DecodedLen. rewrite fmt_x_length.
  replace (2 * length src / 2) with (length src) by (by rewrite Nat.mul_comm, Nat.div_mul).
  pose proof (Decode_from_fmt_x src [] (replicate (length src) zero_byte) [] []) as E.
  simpl in E. rewrite !app_nil_r in E. apply E. by rewrite length_replicate.
Qed.

Lemma pair_ind {A} (P : list A → Prop) :
  P [] → (∀ x, P [x]) → (∀ x y l, P l → P (x :: y :: l)) → ∀ l, P l.
Proof.
  intros H0 H1 H2 l. cut (P l ∧ ∀ x, P (x :: l)); [tauto|].
  induction l as [|x l [IHa IHb]]; split; auto.
Qed.

(** [Decode] into a buffer of [DecodedLen] bytes stays within it. *)
Lemma Decode_from_returns src : ∀ dst i,
  i + length src / 2 ≤ len dst →
  ∃ l n err, hex.Decode_from dst src i = Ret (Slice l (spare dst), n, err) ∧ length l = len dst.
Proof.
  induction src as [|p|p q src IH] using pair_ind; intros [l sp] i H.
  - by exists l, i, None.
  - simpl. destruct (hex.fromHexChar p); by eexists _, _, _.
  - cbn [hex.Decode_from].
    destruct (hex.fromHexChar p) as [a|]; [|by eexists _, _, _].
    destruct (hex.fromHexChar q) as [b|]; [|by eexists _, _, _].
    change (length (p :: q :: src)) with (2 + length src) in H.
    replace ((2 + length src) / 2) with (1 + length src / 2) in H
      by (rewrite <- (Nat.div_add_l 1 2) by done; done).
    rewrite store_lt by lia. cbn [mbind outcome_bind bind elems spare].
    destruct (IH (Slice (<[i:=to_byte (N.lor (N.shiftl a 4) b)]> l) sp) (S i))
      as (l' & n & err & E & Hlen).
    { unfold len in *; cbn [elems] in *. rewrite length_insert. lia. }
    exists l', n, err. split; [done|]. rewrite Hlen. unfold len; cbn [elems].
    by rewrite length_insert.
Qed.

End hex_facts.

Section subtle_facts.
Local Open Scope N_scope.

Lemma small_log2 a : a < 256 ↔ N.log2 a < 8.
Proof.
  destruct (N.eq_dec a 0) as [->|Hne]; [done|].
  change 256 with (2 ^ 8). apply N.log2_lt_pow2. lia.
Qed.

Lemma lor_small a b : a < 256 → b < 256 → N.lor a b < 256.
Proof. rewrite !small_log2, N.log2_lor. lia. Qed.

Lemma lxor_small a b : a < 256 → b < 256 → N.lxor a b < 256.
Proof. rewrite !small_log2. pose proof (N.log2_lxor a b). lia. Qed.

Lemma ConstantTimeByteEq_0 v : v < 256 → subtle.ConstantTimeByteEq v 0 = 1%Z ↔ v = 0.
Proof.
  intros Hv. unfold subtle.ConstantTimeByteEq. rewrite N.lxor_0_r.
  destruct (N.eq_dec v 0) as [->|Hne]; [done|]. split; [|done].
  rewrite Z.mod_small by lia. rewrite Z.shiftr_div_pow2 by lia.
  rewrite Z.div_small by lia. done.
Qed.

Lemma compare_loop_steps x : ∀ y v n,
  length x = length y → (subtle.compare_loop x y v n).2 = (n + length x)%nat.
Proof.
  induction x as [|a x IH]; intros [|b y] v n H; simplify_eq/=; [lia|].
  rewrite IH by done. lia.
Qed.

Lemma compare_loop_small x : ∀ y v n, v < 256 → (subtle.compare_loop x y v n).1 < 256.
Proof.
  induction x as [|a x IH]; intros [|b y] v n H; simpl; try done.
  apply IH, lor_small; [done|]. apply lxor_small; apply byte_val_lt.
Qed.

Lemma compare_loop_zero x : ∀ y v n,
  length x = length y → (subtle.compare_loop x y v n).1 = 0 ↔ v = 0 ∧ x = y.
Proof.
  induction x as [|a x IH]; intros [|b y] v n H; simplify_eq/=; [tauto|].
  rewrite IH by done. rewrite N.lor_eq_0_iff. split.
  - intros [[-> E] ->]. apply N.lxor_eq, byte_val_inj in E. by subst.
  - intros [-> [= -> ->]]. by rewrite N.lxor_nilpotent.
Qed.

(** [ConstantTimeCompare] is equality of byte sequences. *)
Lemma ConstantTimeCompare_eq x y : subtle.ConstantTimeCompare x y = 1%Z ↔ x = y.
Proof.
  unfold subtle.ConstantTimeCompare, subtle.ConstantTimeCompare_steps.
  case_decide as Hlen; [|simpl; split; [done|by intros ->]].
  pose proof (compare_loop_zero x y 0 0%nat Hlen) as Hz.
  pose proof (compare_loop_small x y 0 0%nat eq_refl) as Hs.
  destruct (subtle.compare_loop x y 0 0) as [v steps]; simpl in *.
  rewrite ConstantTimeByteEq_0 by done. tauto.
Qed.

(** Its loop runs once per byte, whatever the bytes are. *)
Lemma ConstantTimeCompare_steps_length x y :
  (subtle.ConstantTimeCompare_steps x y).2 =
  if decide (length x = length y) then length x else 0%nat.
Proof.
  unfold subtle.ConstantTimeCompare_steps. case_decide as Hlen; [|done].
  pose proof (compare_loop_steps x y 0 0%nat Hlen) as Hs.
  by destruct (subtle.compare_loop x y 0 0).
Qed.

Lemma hmac_Equal_decide x y : hmac.Equal x y = bool_decide (x = y).
Proof. unfold hmac.Equal. apply bool_decide_ext, ConstantTimeCompare_eq. Qed.

End subtle_facts.

Section decode_facts.
Context `{L : Lib}.
Implicit Types (ids rest extra sp : list bytes) (signkey sigpart h p m c : bytes).

Lemma is_delimiter_part part : string_of_bytes part = delimiter → part = delimiter_part.
Proof.
  intros E. unfold delimiter_part, bytes_of_string. rewrite <- E.
  unfold string_of_bytes. by rewrite list_ascii_of_string_of_list_ascii.
Qed.

Lemma lookup_app_add {A} (l k : list A) n : (l ++ k) !! (length l + n) = k !! n.
Proof. rewrite lookup_app_r by lia. f_equal. lia. Qed.

(** The scan stops at the first delimiter frame. *)
Lemma scan_found ids : ∀ rest n i,
  no_delimiter ids →
  scan_delimiter n (ids ++ delimiter_part :: rest) i = Ret (i + length ids).
Proof.
  induction ids as [|part ids IH]; intros rest n i Hids; simpl.
  - by rewrite Nat.add_0_r.
  - inversion_clear Hids as [|?? Hpart Hrest]. rewrite decide_True by done.
    rewrite IH by done. f_equal. lia.
Qed.

(** Without a delimiter frame it runs into the bounds check at the length. *)
Lemma scan_missing parts : ∀ n i,
  no_delimiter parts →
  scan_delimiter n parts i = Panic (IndexOutOfRange (i + length parts) n).
Proof.
  induction parts as [|part parts IH]; intros n i Hparts; simpl.
  - by rewrite Nat.add_0_r.
  - inversion_clear Hparts as [|?? Hpart Hrest]. rewrite decide_True by done.
    rewrite IH by done. do 2 f_equal. lia.
Qed.

(** Every sequence either has a first delimiter frame or none at all. *)
Lemma first_delimiter parts :
  no_delimiter parts ∨
  ∃ ids rest, parts = ids ++ delimiter_part :: rest ∧ no_delimiter ids.
Proof.
  induction parts as [|part parts [IH|(ids & rest & -> & Hids)]].
  - left. constructor.
  - destruct (decide (string_of_bytes part = delimiter)) as [E|E].
    + right. exists [], parts. apply is_delimiter_part in E as ->. by split; [|constructor].
    + left. by constructor.
  - destruct (decide (string_of_bytes part = delimiter)) as [E|E].
    + right. exists [], (ids ++ delimiter_part :: rest).
      apply is_delimiter_part in E as ->. by split; [|constructor].
    + right. exists (part :: ids), rest. by split; [|constructor].
Qed.

Lemma mac_of_four signkey h p m c :
  hash.Sum (mac_of signkey [h; p; m; c]) [] = signed_region_mac signkey h p m c.
Proof.
  unfold hash.Sum, mac_of, signed_region_mac; simpl. by rewrite <- !app_assoc.
Qed.

Lemma decoded_signature_spec sigpart :
  ∃ n err,
    hex.Decode (make zero_byte (hex.DecodedLen (length sigpart))) sigpart =
    Ret (Slice (decoded_signature sigpart) [], n, err).
Proof.
  unfold decoded_signature.
  destruct (Decode_from_returns sigpart (make zero_byte (hex.DecodedLen (length sigpart))) 0)
    as (l & n & err & E & _).
  { unfold len, make; simpl. by rewrite length_replicate. }
  unfold hex.Decode. rewrite E. by exists n, err.
Qed.

(** The decoder on a sequence with a first delimiter frame and five frames
    or more after it. *)
Lemma WireMsgToComposedMsg_framed ids sigpart h p m c extra sp signkey :
  no_delimiter ids →
  WireMsgToComposedMsg
    (Slice (ids ++ delimiter_part :: sigpart :: h :: p :: m :: c :: extra) sp) signkey =
  if decide (length signkey ≠ 0 ∧ signed_region_mac signkey h p m c ≠ decoded_signature sigpart)
  then Ret (zero_ComposedMsg, nil_slice, Some InvalidSignatureError)
  else Ret (unmarshalled h p m c,
            Slice ids (delimiter_part :: sigpart :: h :: p :: m :: c :: extra ++ sp), None).
Proof.
  intros Hids. unfold WireMsgToComposedMsg. cbn [elems].
  rewrite scan_found by done. cbn [mbind outcome_bind bind]. rewrite Nat.add_0_l.
  rewrite reslice_prefix by (unfold len; cbn [elems]; rewrite length_app; lia).
  cbn [mbind outcome_bind bind elems spare].
  rewrite take_app_length, drop_app_length.
  assert (Hidx : ∀ k x,
    (delimiter_part :: sigpart :: h :: p :: m :: c :: extra) !! k = Some x →
    index (Slice (ids ++ delimiter_part :: sigpart :: h :: p :: m :: c :: extra) sp)
          (length ids + k) = Ret x).
  { intros k x Hk. apply index_Some. cbn [elems]. by rewrite lookup_app_add. }
  assert (Hrej : signature_rejected
      (Slice (ids ++ delimiter_part :: sigpart :: h :: p :: m :: c :: extra) sp) signkey
      (length ids) =
    Ret (negb (bool_decide (signed_region_mac signkey h p m c = decoded_signature sigpart)))).
  { unfold signature_rejected, reslice, cap, backing. cbn [elems spare].
    rewrite decide_True by (rewrite !length_app; simpl; lia).
    rewrite decide_True by lia. cbn [mbind outcome_bind bind elems].
    rewrite <- app_assoc, drop_app_add. cbn [drop app].
    replace (length ids + 6 - (length ids + 2)) with 4 by lia. cbn [take].
    rewrite (Hidx 1 sigpart) by done. cbn [mbind outcome_bind bind].
    destruct (decoded_signature_spec sigpart) as (n & err & ->).
    cbn [mbind outcome_bind bind elems mret outcome_ret].
    by rewrite mac_of_four, hmac_Equal_decide. }
  destruct (decide (length signkey ≠ 0 ∧ _)) as [[Hkey Hmac]|Hno].
  - rewrite decide_True, Hrej by done. cbn [mbind outcome_bind bind].
    by rewrite bool_decide_false.
  - destruct (decide (length signkey ≠ 0)) as [Hkey|Hkey]; cbn [mbind outcome_bind bind mret outcome_ret].
    + rewrite Hrej. cbn [mbind outcome_bind bind].
      rewrite bool_decide_true by (apply dec_stable; tauto). cbn [negb].
      rewrite (Hidx 2 h), (Hidx 3 p), (Hidx 4 m), (Hidx 5 c) by done. done.
    + rewrite (Hidx 2 h), (Hidx 3 p), (Hidx 4 m), (Hidx 5 c) by done. done.
Qed.
(** The decoder on a sequence without a delimiter frame. *)
Lemma WireMsgToComposedMsg_no_delimiter (msgparts : slice bytes) signkey :
  no_delimiter (elems msgparts) →
  WireMsgToComposedMsg msgparts signkey =
  Panic (IndexOutOfRange (len msgparts) (len msgparts)).
Proof. intros Hno. unfold WireMsgToComposedMsg. by rewrite scan_missing. Qed.

Lemma index_app_add ids rest sp k :
  index (Slice (ids ++ rest) sp) (length ids + k) =
  match rest !! k with
  | Some x => Ret x
  | None => Panic (IndexOutOfRange (length ids + k) (length ids + length rest))
  end.
Proof. unfold index, len. cbn [elems]. by rewrite lookup_app_add, length_app. Qed.

(** The decoder on a sequence with a first delimiter frame and fewer than
    five frames after it: a panic, or the rejection of the signature. *)
Lemma WireMsgToComposedMsg_short ids rest sp signkey :
  no_delimiter ids → length rest < 5 →
  (∃ pn, WireMsgToComposedMsg (Slice (ids ++ delimiter_part :: rest) sp) signkey = Panic pn) ∨
  WireMsgToComposedMsg (Slice (ids ++ delimiter_part :: rest) sp) signkey =
    Ret (zero_ComposedMsg, nil_slice, Some InvalidSignatureError).
Proof.
  intros Hids Hlen. unfold WireMsgToComposedMsg. cbn [elems].
  rewrite scan_found by done. cbn [mbind outcome_bind bind]. rewrite Nat.add_0_l.
  rewrite reslice_prefix by (unfold len; cbn [elems]; rewrite length_app; lia).
  cbn [mbind outcome_bind bind].
  match goal with |- context [mbind ?K (if decide _ then _ else _)] => set (k := K) end.
  assert (Hk : ∀ rej,
    (∃ pn, k rej = Panic pn) ∨
    k rej = Ret (zero_ComposedMsg, nil_slice, Some InvalidSignatureError)).
  { intros [|]; subst k; cbn beta iota; [by right|]. left. rewrite !index_app_add.
    destruct rest as [|a [|b [|c [|d [|e rest]]]]]; simpl in Hlen; try lia;
      cbn [lookup list_lookup mbind outcome_bind bind]; eexists; reflexivity. }
  destruct (decide (length signkey ≠ 0)) as [Hkey|Hkey]; [|apply (Hk false)].
  destruct (signature_rejected _ _ _) as [rej|pn|code] eqn:Erej; cbn [mbind outcome_bind bind].
  - apply Hk.
  - left. by eexists.
  - exfalso. revert Erej. unfold signature_rejected.
    unfold reslice. repeat case_decide; cbn [mbind outcome_bind bind]; try done.
    unfold index at 1. destruct (_ !! (length ids + 1)) as [sigpart|];
      cbn [mbind outcome_bind bind]; try done.
    destruct (decoded_signature_spec sigpart) as (written & err & E).
    cbv zeta. by rewrite E.
Qed.

(** With a key, and a capacity that ends before the fifth frame after the
    delimiter, the slice expression of the signed region panics. *)
Lemma WireMsgToComposedMsg_short_cap ids rest sp signkey :
  no_delimiter ids → signkey ≠ [] → length rest + length sp < 5 →
  WireMsgToComposedMsg (Slice (ids ++ delimiter_part :: rest) sp) signkey =
  Panic (SliceBoundsOutOfRange (length ids + 6) (length ids + 1 + length rest + length sp)).
Proof.
  intros Hids Hkey Hcap. unfold WireMsgToComposedMsg. cbn [elems].
  rewrite scan_found by done. cbn [mbind outcome_bind bind]. rewrite Nat.add_0_l.
  rewrite reslice_prefix by (unfold len; cbn [elems]; rewrite length_app; lia).
  cbn [mbind outcome_bind bind].
  rewrite decide_True by (by destruct signkey).
  unfold signature_rejected, reslice, cap, backing. cbn [elems spare].
  rewrite !length_app. cbn [length].
  rewrite decide_False by lia. cbn [mbind outcome_bind bind].
  do 2 f_equal. lia.
Qed.

(** A decoding error of a frame is not an error of the decoder. *)
Lemma WireMsgToComposedMsg_drops_decode_errors ids sigpart h p m c extra sp e :
  no_delimiter ids →
  (Unmarshal h zero_MsgHeader).2 = Some e ∨ (Unmarshal p zero_MsgHeader).2 = Some e ∨
  (Unmarshal m (None : option (gmap string any))).2 = Some e ∨
  (Unmarshal c any_nil).2 = Some e →
  WireMsgToComposedMsg
    (Slice (ids ++ delimiter_part :: sigpart :: h :: p :: m :: c :: extra) sp) [] =
  Ret (unmarshalled h p m c,
       Slice ids (delimiter_part :: sigpart :: h :: p :: m :: c :: extra ++ sp), None).
Proof.
  intros Hids _. rewrite WireMsgToComposedMsg_framed by done.
  by rewrite decide_False by (by intros [[] _]).
Qed.


End decode_facts.

Section encode_facts.
Context `{L : Lib}.
Implicit Types (msg : ComposedMsg) (signkey h p m c : bytes).

Lemma defaulted_Metadata msg : Metadata (defaulted msg) = encoded_Metadata msg.
Proof. unfold defaulted, encoded_Metadata. by destruct msg as [? ? [?|] ?]. Qed.

Lemma defaulted_fields msg :
  Header (defaulted msg) = Header msg ∧ ParentHeader (defaulted msg) = ParentHeader msg ∧
  Content (defaulted msg) = Content msg.
Proof. unfold defaulted. by destruct msg as [? ? [?|] ?]. Qed.

Lemma sign_spec signkey f0 h p m c :
  sign (Slice [f0; h; p; m; c] []) signkey =
  Ret (Slice [uuid.fmt_x (signed_region_mac signkey h p m c); h; p; m; c] []).
Proof.
  unfold sign, reslice, cap, backing, len. cbn [elems spare app length].
  rewrite !decide_True by lia. cbn [mbind outcome_bind bind elems drop take Nat.sub].
  rewrite mac_of_four.
  replace hash.Size with (length (signed_region_mac signkey h p m c))
    by apply hmac_sha256_Size.
  rewrite Encode_fresh. cbn [mbind outcome_bind bind elems of_list].
  by rewrite store_lt by (unfold len; simpl; lia).
Qed.

(** The encoder when every field is marshalled. *)
Lemma ToWireMsg_body_ok msg signkey h p m c :
  Marshal (Header msg) = inr h → Marshal (ParentHeader msg) = inr p →
  Marshal (encoded_Metadata msg) = inr m → Marshal (Content msg) = inr c →
  ToWireMsg_body signkey msg =
  Ret (defaulted msg, (Slice [signature_part signkey h p m c; h; p; m; c] [], None)).
Proof.
  intros Hh Hp Hm Hc. unfold ToWireMsg_body. rewrite Hh, Hp. fold (defaulted msg).
  rewrite defaulted_Metadata, Hm. destruct (defaulted_fields msg) as (_ & _ & ->).
  rewrite Hc. unfold make. cbn [replicate].
  do 4 (rewrite store_lt by (unfold len; simpl; lia);
        cbn [mbind outcome_bind bind elems spare insert list_insert]).
  unfold signature_part. case_decide; cbn [mbind outcome_bind bind mret outcome_ret]; [|done].
  by rewrite sign_spec.
Qed.

(** The encoder always returns; it reports no error exactly when the four
    fields are marshalled. *)
Lemma ToWireMsg_body_returns msg signkey :
  ∃ msg' parts err, ToWireMsg_body signkey msg = Ret (msg', (parts, err)) ∧
    (err = None ↔
     ∃ h p m c, Marshal (Header msg) = inr h ∧ Marshal (ParentHeader msg) = inr p ∧
                Marshal (encoded_Metadata msg) = inr m ∧ Marshal (Content msg) = inr c).
Proof.
  destruct (Marshal (Header msg)) as [e|h] eqn:Hh.
  { unfold ToWireMsg_body. rewrite Hh. eexists _, _, _. split; [done|]. split; [done|]. intros (? & ? & ? & ? & ? & ? & ? & ?); congruence. }
  destruct (Marshal (ParentHeader msg)) as [e|p] eqn:Hp.
  { unfold ToWireMsg_body. rewrite Hh, Hp. unfold store, make, len; simpl.
    eexists _, _, _. split; [done|]. split; [done|]. intros (? & ? & ? & ? & ? & ? & ? & ?); congruence. }
  destruct (Marshal (encoded_Metadata msg)) as [e|m] eqn:Hm.
  { unfold ToWireMsg_body. rewrite Hh, Hp. fold (defaulted msg).
    rewrite defaulted_Metadata, Hm. unfold store, make, len; simpl.
    eexists _, _, _. split; [done|]. split; [done|]. intros (? & ? & ? & ? & ? & ? & ? & ?); congruence. }
  destruct (Marshal (Content msg)) as [e|c] eqn:Hc.
  { unfold ToWireMsg_body. rewrite Hh, Hp. fold (defaulted msg).
    rewrite defaulted_Metadata, Hm. destruct (defaulted_fields msg) as (_ & _ & ->).
    rewrite Hc. unfold store, make, len; simpl.
    eexists _, _, _. split; [done|]. split; [done|]. intros (? & ? & ? & ? & ? & ? & ? & ?); congruence. }
  rewrite (ToWireMsg_body_ok msg signkey h p m c) by done.
  eexists _, _, _. split; [done|]. split; [|done]. intros _. by exists h, p, m, c.
Qed.

Lemma ToWireMsg_call_returns msg signkey :
  ∃ parts err, ToWireMsg_call msg signkey = Ret (msg, (parts, err)).
Proof.
  destruct (ToWireMsg_body_returns msg signkey) as (msg' & parts & err & E & _).
  unfold ToWireMsg_call, call_value_receiver. rewrite E. by eexists _, _.
Qed.

Lemma ToWireMsg_returns msg signkey :
  ∃ parts err, ToWireMsg msg signkey = Ret (parts, err) ∧
    (err = None ↔
     ∃ h p m c, Marshal (Header msg) = inr h ∧ Marshal (ParentHeader msg) = inr p ∧
                Marshal (encoded_Metadata msg) = inr m ∧ Marshal (Content msg) = inr c).
Proof.
  destruct (ToWireMsg_body_returns msg signkey) as (msg' & parts & err & E & Herr).
  unfold ToWireMsg, ToWireMsg_call, call_value_receiver. rewrite E. by eexists _, _.
Qed.

Lemma ToWireMsg_ok msg signkey h p m c :
  Marshal (Header msg) = inr h → Marshal (ParentHeader msg) = inr p →
  Marshal (encoded_Metadata msg) = inr m → Marshal (Content msg) = inr c →
  ToWireMsg msg signkey = Ret (Slice [signature_part signkey h p m c; h; p; m; c] [], None).
Proof.
  intros Hh Hp Hm Hc. unfold ToWireMsg, ToWireMsg_call, call_value_receiver.
  by rewrite (ToWireMsg_body_ok msg signkey h p m c).
Qed.

End encode_facts.

Section uuid_facts.

Lemma digits_inj (a b : ascii) :
  hex.digit (N.shiftr (byte_val a) 4) = hex.digit (N.shiftr (byte_val b) 4) →
  hex.digit (N.land (byte_val a) 15) = hex.digit (N.land (byte_val b) 15) →
  a = b.
Proof.
  intros Hhi Hlo.
  destruct (hex_digits_of_byte a) as (A1 & A2 & A3), (hex_digits_of_byte b) as (B1 & B2 & B3).
  rewrite Hhi, B1 in A1. rewrite Hlo, B2 in A2. simplify_eq. congruence.
Qed.

Lemma string_of_bytes_inj (a b : bytes) : string_of_bytes a = string_of_bytes b → a = b.
Proof.
  intros E. rewrite <- (list_ascii_of_string_of_list_ascii a), <- (list_ascii_of_string_of_list_ascii b).
  unfold string_of_bytes in E. by rewrite E.
Qed.

(** The text of a UUID has 36 characters. *)
Lemma String_length (u : bytes) : length u = 16 → String.length (uuid.String u) = 36.
Proof.
  intros H. do 17 (destruct u as [|? u]; try done).
Qed.

(** It is made of groups of 8, 4, 4, 4 and 12 digits with dashes between. *)
Lemma String_groups (u : bytes) :
  length u = 16 →
  ∃ g1 g2 g3 g4 g5,
    uuid.String u =
      string_of_bytes (g1 ++ uuid.dash ++ g2 ++ uuid.dash ++ g3 ++ uuid.dash ++ g4 ++
                       uuid.dash ++ g5) ∧
    length g1 = 8 ∧ length g2 = 4 ∧ length g3 = 4 ∧ length g4 = 4 ∧ length g5 = 12.
Proof.
  intros H. eexists _, _, _, _, _. split; [reflexivity|].
  rewrite !fmt_x_length, !length_take, !length_drop, H. repeat split; reflexivity.
Qed.

(** Two 16-byte UUIDs with the same text are the same. *)
Lemma String_inj (u1 u2 : bytes) :
  length u1 = 16 → length u2 = 16 → uuid.String u1 = uuid.String u2 → u1 = u2.
Proof.
  intros H1 H2 E. apply string_of_bytes_inj in E.
  do 17 (destruct u1 as [|? u1]; try done). do 17 (destruct u2 as [|? u2]; try done).
  cbn in E. simplify_eq. repeat f_equal; by apply digits_inj.
Qed.

Lemma version_variant_bits (a : ascii) :
  to_byte (N.land (byte_val (to_byte (N.lor (N.land (byte_val a) 15) (N.shiftl 4 4)))) 15)
    = to_byte (N.land (byte_val a) 15) ∧
  to_byte (N.lor (N.land (byte_val (to_byte (N.land (byte_val a) 15))) 15) (N.shiftl 4 4))
    = to_byte (N.lor (N.land (byte_val a) 15) (N.shiftl 4 4)) ∧
  to_byte (N.land (byte_val (to_byte (N.land (N.lor (byte_val a) 64) 127))) 63)
    = to_byte (N.land (byte_val a) 63) ∧
  to_byte (N.land (N.lor (byte_val (to_byte (N.land (byte_val a) 63))) 64) 127)
    = to_byte (N.land (N.lor (byte_val a) 64) 127).
Proof. destruct a as [[] [] [] [] [] [] [] []]; by vm_compute. Qed.

Lemma version_bits_iff (a b : ascii) :
  to_byte (N.lor (N.land (byte_val a) 15) (N.shiftl 4 4)) =
  to_byte (N.lor (N.land (byte_val b) 15) (N.shiftl 4 4)) ↔
  to_byte (N.land (byte_val a) 15) = to_byte (N.land (byte_val b) 15).
Proof.
  destruct (version_variant_bits a) as (A1 & A2 & _), (version_variant_bits b) as (B1 & B2 & _).
  split; intros E.
  - rewrite <- A1, <- B1. by rewrite E.
  - rewrite <- A2, <- B2. by rewrite E.
Qed.

Lemma variant_bits_iff (a b : ascii) :
  to_byte (N.land (N.lor (byte_val a) 64) 127) = to_byte (N.land (N.lor (byte_val b) 64) 127) ↔
  to_byte (N.land (byte_val a) 63) = to_byte (N.land (byte_val b) 63).
Proof.
  destruct (version_variant_bits a) as (_ & _ & A1 & A2), (version_variant_bits b) as (_ & _ & B1 & B2).
  split; intros E.
  - rewrite <- A1, <- B1. by rewrite E.
  - rewrite <- A2, <- B2. by rewrite E.
Qed.

Lemma v4_of_eq (r : bytes) :
  v4_of r =
  <[6 := to_byte (N.lor (N.land
            (uuid.at_ (<[8 := to_byte (N.land (N.lor (uuid.at_ r 8) 64) 127)]> r) 6) 15)
          (N.shiftl 4 4))]>
    (<[8 := to_byte (N.land (N.lor (uuid.at_ r 8) 64) 127)]> r).
Proof. reflexivity. Qed.

(** [NewV4] keeps 122 of the 128 random bits: two draws give the same UUID
    exactly when they agree on the kept bits. *)
Lemma v4_of_kept_bits (r1 r2 : bytes) :
  length r1 = 16 → length r2 = 16 →
  v4_of r1 = v4_of r2 ↔ kept_bits r1 = kept_bits r2.
Proof.
  intros H1 H2.
  do 17 (destruct r1 as [|? r1]; try done). do 17 (destruct r2 as [|? r2]; try done).
  rewrite !v4_of_eq. unfold kept_bits, uuid.at_. cbn [insert list_insert nth].
  split; intros E; injection E as -> -> -> -> -> -> E6 -> E8 -> -> -> -> -> -> ->.
  - apply version_bits_iff in E6. apply variant_bits_iff in E8. by rewrite E6, E8.
  - apply version_bits_iff in E6. apply variant_bits_iff in E8. by rewrite E6, E8.
Qed.

Lemma v4_of_length (r : bytes) : length (v4_of r) = length r.
Proof. rewrite v4_of_eq. by rewrite !length_insert. Qed.

End uuid_facts.

Section respond_facts.
Context `{L : Lib}.
Implicit Types (w : World) (msg parent : ComposedMsg).

Lemma drawn_length w : length (drawn w) = 16.
Proof. unfold drawn. by rewrite length_fmap, length_seq. Qed.

(** [NewMsg] when the random source answers. *)
Lemma NewMsg_drawn msgType parent w :
  (rand_source w (rand_calls w)).2 = None →
  NewMsg msgType parent w =
  (Ret (mkComposedMsg
          (mkMsgHeader (uuid.String (v4_of (drawn w))) (Username (Header parent))
                       (Session (Header parent)) msgType)
          (Header parent) None any_nil),
   after_draw w).
Proof.
  intros Hok. unfold NewMsg, uuid.NewV4, rand_Read, drawn, after_draw.
  unfold mbind, M_mbind, M_bind.
  destruct (rand_source w (rand_calls w)) as [fill err]. simpl in Hok. by subst err.
Qed.

(** [NewMsg] when the random source fails. *)
Lemma NewMsg_failed msgType parent w e :
  (rand_source w (rand_calls w)).2 = Some e →
  NewMsg msgType parent w =
  (Exit 1, after_calls (after_draw w) [LogFatalln (errors_Wrap e "Could not generate UUID")]).
Proof.
  intros Herr. unfold NewMsg, uuid.NewV4, rand_Read, after_draw, after_calls.
  unfold mbind, M_mbind, M_bind.
  destruct (rand_source w (rand_calls w)) as [fill err]. simpl in Herr. by subst err.
Qed.

(** [SendResponse], by what [ToWireMsg] returns. *)
Lemma SendResponse_sent receipt socket msg w parts :
  ToWireMsg msg (Key (Sockets receipt)) = Ret (parts, None) →
  SendResponse receipt socket msg w =
  (Ret (), after_calls w
     [SendMultipart socket (elems (Identities receipt)) zmq_SNDMORE;
      Send socket (bytes_of_string "<IDS|MSG>") zmq_SNDMORE;
      SendMultipart socket (elems parts) 0;
      LoggerPrintln ["<--"; MsgType (Header msg)];
      LoggerPrintf format_v (Content msg)]).
Proof.
  intros E. unfold SendResponse, lift. rewrite E. unfold after_calls.
  unfold mbind, M_mbind, M_bind, logger_Printf, emit; simpl. by rewrite <- !app_assoc.
Qed.

Lemma SendResponse_fatal receipt socket msg w parts e :
  ToWireMsg msg (Key (Sockets receipt)) = Ret (parts, Some e) →
  SendResponse receipt socket msg w =
  (Exit 1, after_calls w
     [SendMultipart socket (elems (Identities receipt)) zmq_SNDMORE;
      Send socket (bytes_of_string "<IDS|MSG>") zmq_SNDMORE;
      LogFatalln e]).
Proof.
  intros E. unfold SendResponse, lift. rewrite E. unfold after_calls.
  unfold mbind, M_mbind, M_bind; simpl. by rewrite <- !app_assoc.
Qed.

End respond_facts.

(** * The claims *)

Section claims.
Context `{L : Lib}.
Implicit Types (ids rest extra sp : list bytes) (signkey sigpart h p m c : bytes).
Implicit Types (msg parent : ComposedMsg) (w : World).

(** C1 (as amended).  The scan for the delimiter frame is bounded by the
    length of the sequence through the bounds check of the index
    expression: when no frame equals the delimiter token, the decoder
    panics with index out of range at the index equal to the length.  No
    error value is returned. *)
Theorem C1_scan_without_delimiter_panics (msgparts : slice bytes) signkey :
  no_delimiter (elems msgparts) →
  WireMsgToComposedMsg msgparts signkey =
  Panic (IndexOutOfRange (len msgparts) (len msgparts)).
Proof.
  apply WireMsgToComposedMsg_no_delimiter.
Qed.

(** C3 (as amended).  For every message whose four fields survive
    [encoding/json] (each is marshalled, and unmarshalling the result into a
    zero value gives it back, the metadata taken after the defaulting of a
    nil map) and every key, empty or not, decoding the frames of [ToWireMsg]
    behind any identities and the delimiter gives back the header, the
    parent header and the content, and the metadata with a nil map replaced
    by the empty one. *)
Theorem C3_round_trip msg signkey ids :
  no_delimiter ids →
  round_trips zero_MsgHeader (Header msg) →
  round_trips zero_MsgHeader (ParentHeader msg) →
  round_trips None (encoded_Metadata msg) →
  round_trips any_nil (Content msg) →
  ∃ parts,
    ToWireMsg msg signkey = Ret (parts, None) ∧
    WireMsgToComposedMsg (Slice (ids ++ delimiter_part :: elems parts) []) signkey =
    Ret (mkComposedMsg (Header msg) (ParentHeader msg) (encoded_Metadata msg) (Content msg),
         Slice ids (delimiter_part :: elems parts), None).
Proof.
  intros Hids (h & Hh & Hh') (p & Hp & Hp') (m & Hm & Hm') (c & Hc & Hc').
  eexists. split; [by apply (ToWireMsg_ok msg signkey h p m c)|]. cbn [elems].
  rewrite WireMsgToComposedMsg_framed by done.
  rewrite decide_False.
  - unfold unmarshalled. by rewrite Hh', Hp', Hm', Hc', app_nil_r.
  - intros [Hkey Hmac]. apply Hmac. unfold signature_part. rewrite decide_True by done.
    unfold decoded_signature. by rewrite Decode_fresh.
Qed.

(** C4 (as amended).  After the first delimiter frame, fewer than five
    frames give no message: the decoder panics on a bounds check or, which
    needs a non-empty key and a capacity that reaches the fifth frame,
    rejects the signature; with five frames or more, the result is that of
    the sequence cut after the fifth, with the same identities: the frames
    beyond are tolerated and not consumed. *)
Theorem C4_frames_after_delimiter ids rest sp signkey :
  no_delimiter ids →
  (length rest < 5 →
    (∃ pn, WireMsgToComposedMsg (Slice (ids ++ delimiter_part :: rest) sp) signkey = Panic pn) ∨
    signkey ≠ [] ∧ 5 ≤ length rest + length sp ∧
    WireMsgToComposedMsg (Slice (ids ++ delimiter_part :: rest) sp) signkey =
      Ret (zero_ComposedMsg, nil_slice, Some InvalidSignatureError)) ∧
  (5 ≤ length rest →
    ∃ msg identities identities' err,
      WireMsgToComposedMsg (Slice (ids ++ delimiter_part :: rest) sp) signkey =
        Ret (msg, identities, err) ∧
      WireMsgToComposedMsg (Slice (ids ++ delimiter_part :: take 5 rest) []) signkey =
        Ret (msg, identities', err) ∧
      elems identities = elems identities').
Proof.
  intros Hids. split; intros Hlen.
  - destruct (WireMsgToComposedMsg_short ids rest sp signkey Hids Hlen) as [Hp|Hr]; [by left|].
    destruct signkey as [|b signkey].
    + exfalso. revert Hr. unfold WireMsgToComposedMsg. cbn [elems].
      rewrite scan_found by done. cbn [mbind outcome_bind bind]. rewrite Nat.add_0_l.
      rewrite reslice_prefix by (unfold len; cbn [elems]; rewrite length_app; lia).
      cbn [mbind outcome_bind bind length decide]. rewrite decide_False by (by intros []).
      cbn [mbind outcome_bind bind mret outcome_ret]. rewrite !index_app_add.
      destruct rest as [|x1 [|x2 [|x3 [|x4 [|x5 rest]]]]]; simpl in Hlen; try lia; done.
    + destruct (decide (length rest + length sp < 5)) as [Hcap|Hcap].
      * left. eexists. by apply WireMsgToComposedMsg_short_cap.
      * right. split; [done|]. split; [lia|done].
  - destruct rest as [|sigpart [|h [|p [|m [|c extra]]]]]; simpl in Hlen; try lia.
    cbn [take]. rewrite !WireMsgToComposedMsg_framed by done.
    case_decide; by eexists _, _, _, _.
Qed.


(** C7.  With the empty key the signature frame is not looked at: the
    decoder returns without error the message unmarshalled from the four
    frames behind it, whatever the signature frame holds. *)
Theorem C7_unsigned_skips_verification ids sigpart sigpart' h p m c extra sp :
  no_delimiter ids →
  WireMsgToComposedMsg
    (Slice (ids ++ delimiter_part :: sigpart :: h :: p :: m :: c :: extra) sp) [] =
    Ret (unmarshalled h p m c,
         Slice ids (delimiter_part :: sigpart :: h :: p :: m :: c :: extra ++ sp), None) ∧
  WireMsgToComposedMsg
    (Slice (ids ++ delimiter_part :: sigpart' :: h :: p :: m :: c :: extra) sp) [] =
    Ret (unmarshalled h p m c,
         Slice ids (delimiter_part :: sigpart' :: h :: p :: m :: c :: extra ++ sp), None).
Proof.
  intros Hids. rewrite !WireMsgToComposedMsg_framed by done.
  rewrite !decide_False by (by intros [[] _]). done.
Qed.

(** C8.  The identities returned by the decoder are exactly the frames
    before the first delimiter frame, in their order: every successful
    decoding of any sequence returns them, with the delimiter and at least
    five frames behind them; and the decoding is successful when five
    frames follow the first delimiter and the key is empty or the signature
    matches. *)
Theorem C8_identities (msgparts : slice bytes) signkey :
  (∀ msg identities,
     WireMsgToComposedMsg msgparts signkey = Ret (msg, identities, None) →
     ∃ rest,
       elems msgparts = elems identities ++ delimiter_part :: rest ∧
       no_delimiter (elems identities) ∧ 5 ≤ length rest) ∧
  (∀ ids sigpart h p m c extra,
     elems msgparts = ids ++ delimiter_part :: sigpart :: h :: p :: m :: c :: extra →
     no_delimiter ids →
     signkey = [] ∨ decoded_signature sigpart = signed_region_mac signkey h p m c →
     ∃ msg identities,
       WireMsgToComposedMsg msgparts signkey = Ret (msg, identities, None) ∧
       elems identities = ids).
Proof.
  destruct msgparts as [parts sp]. cbn [elems]. split.
  - intros msg identities E.
    destruct (first_delimiter parts) as [Hno|(ids & rest & -> & Hids)].
    { by rewrite WireMsgToComposedMsg_no_delimiter in E. }
    destruct (decide (length rest < 5)) as [Hlen|Hlen].
    { destruct (WireMsgToComposedMsg_short ids rest sp signkey Hids Hlen) as [[pn Hp]|Hr];
        congruence. }
    destruct rest as [|sigpart [|h [|p [|m [|c extra]]]]]; simpl in Hlen; try lia.
    rewrite WireMsgToComposedMsg_framed in E by done.
    case_decide; simplify_eq. eexists. split; [done|]. split; [done|simpl; lia].
  - intros ids sigpart h p m c extra -> Hids Hsig.
    rewrite WireMsgToComposedMsg_framed by done.
    rewrite decide_False; [by eexists _, _|].
    intros [Hkey Hmac]. destruct Hsig as [->|E]; [done|by symmetry in E].
Qed.

(** C9 (as amended).  When identifier generation succeeds, [NewMsg] returns
    a message whose parent header is the parent's header, whose session
    and user name are the parent's, whose type is the given label, and
    whose id is the 36-character text, in groups of 8, 4, 4, 4 and 12
    digits, of the version-4 UUID made from the sixteen bytes of this
    call's own read of the random source, of which
    122 bits are kept: another read gives the same id exactly when it
    agrees on those bits; the next call takes the next read.  The id is
    not compared with the parent's: it differs from it unless the parent's
    id is the text of this very UUID. *)
Theorem C9_NewMsg_header msgType parent w :
  (rand_source w (rand_calls w)).2 = None →
  ∃ msg,
    NewMsg msgType parent w = (Ret msg, after_draw w) ∧
    ParentHeader msg = Header parent ∧
    Session (Header msg) = Session (Header parent) ∧
    Username (Header msg) = Username (Header parent) ∧
    MsgType (Header msg) = msgType ∧
    MsgID (Header msg) = uuid.String (v4_of (drawn w)) ∧
    String.length (MsgID (Header msg)) = 36 ∧
    (∃ g1 g2 g3 g4 g5,
       MsgID (Header msg) =
         string_of_bytes (g1 ++ uuid.dash ++ g2 ++ uuid.dash ++ g3 ++ uuid.dash ++ g4 ++
                          uuid.dash ++ g5) ∧
       length g1 = 8 ∧ length g2 = 4 ∧ length g3 = 4 ∧ length g4 = 4 ∧ length g5 = 12) ∧
    (∀ w', uuid.String (v4_of (drawn w')) = MsgID (Header msg) ↔
           kept_bits (drawn w') = kept_bits (drawn w)) ∧
    rand_calls (after_draw w) = S (rand_calls w) ∧
    (MsgID (Header parent) ≠ uuid.String (v4_of (drawn w)) →
     MsgID (Header msg) ≠ MsgID (Header parent)).
Proof.
  intros Hok. eexists. split; [by apply NewMsg_drawn|].
  cbn [Header ParentHeader MsgID Username Session MsgType].
  do 5 (split; [done|]). split; [|split; [|split; [|done]]].
  - apply String_length. by rewrite v4_of_length, drawn_length.
  - apply String_groups. by rewrite v4_of_length, drawn_length.
  - intros w'. rewrite <- v4_of_kept_bits by apply drawn_length. split; [|by intros ->].
    apply String_inj; rewrite v4_of_length; apply drawn_length.
Qed.

(** C10.  A call of [ToWireMsg] leaves the caller's message as it was: the
    method has a value receiver.  When the caller's metadata is nil, the
    empty map is stored in the receiver copy and marshalled into the
    metadata frame, and the caller's metadata is still nil; with a pointer
    receiver the same body would have left the empty map in the caller's
    message. *)
Theorem C10_ToWireMsg_keeps_callers_value msg signkey :
  (∃ parts err, ToWireMsg_call msg signkey = Ret (msg, (parts, err))) ∧
  (∀ h p m,
     Metadata msg = None →
     Marshal (Header msg) = inr h → Marshal (ParentHeader msg) = inr p →
     Marshal (Some ∅ : option (gmap string any)) = inr m →
     ∃ parts err,
       ToWireMsg_call msg signkey = Ret (msg, (parts, err)) ∧
       call_pointer_receiver (ToWireMsg_body signkey) msg =
         Ret (with_Metadata msg (Some ∅), (parts, err)) ∧
       elems parts !! 3 = Some m ∧
       Metadata msg = None).
Proof.
  split; [apply ToWireMsg_call_returns|].
  intros h p m Hnil Hh Hp Hm.
  assert (Hdef : defaulted msg = with_Metadata msg (Some ∅)) by (unfold defaulted; by rewrite Hnil).
  assert (Henc : encoded_Metadata msg = Some ∅) by (unfold encoded_Metadata; by rewrite Hnil).
  unfold ToWireMsg_call, call_value_receiver, call_pointer_receiver.
  destruct (Marshal (Content msg)) as [e|c] eqn:Hc.
  - assert (E : ToWireMsg_body signkey msg =
      Ret (with_Metadata msg (Some ∅),
           (Slice [[]; h; p; m; []] [], Some (errors_Wrap e "Could not marshal content")))).
    { unfold ToWireMsg_body. rewrite Hh, Hp, Hnil. cbn [Metadata with_Metadata Content].
      by rewrite Hm, Hc. }
    rewrite E. by eexists _, _.
  - rewrite <- Henc in Hm. pose proof (ToWireMsg_body_ok msg signkey h p m c Hh Hp Hm Hc) as E.
    rewrite Hdef in E. rewrite E. by eexists _, _.
Qed.

End claims.

(** * Further properties of the code *)

Section properties.
Context `{L : Lib}.
Implicit Types (ids rest extra sp : list bytes) (signkey sigpart h p m c : bytes).
Implicit Types (msg parent : ComposedMsg) (w : World).

(** [ToWireMsg] by the results of the four [json.Marshal] calls. *)
Lemma ToWireMsg_cases msg signkey :
  ToWireMsg msg signkey =
  Ret match Marshal (Header msg) with
      | inl e => (Slice [[]; []; []; []; []] [],
                  Some (errors_Wrap e "Could not marshal message header"))
      | inr h =>
      match Marshal (ParentHeader msg) with
      | inl e => (Slice [[]; h; []; []; []] [],
                  Some (errors_Wrap e "Could not marshal parent header"))
      | inr p =>
      match Marshal (encoded_Metadata msg) with
      | inl e => (Slice [[]; h; p; []; []] [],
                  Some (errors_Wrap e "Could not marshal metadata"))
      | inr m =>
      match Marshal (Content msg) with
      | inl e => (Slice [[]; h; p; m; []] [],
                  Some (errors_Wrap e "Could not marshal content"))
      | inr c => (Slice [signature_part signkey h p m c; h; p; m; c] [], None)
      end end end end.
Proof.
  destruct (Marshal (Header msg)) as [e|h] eqn:Hh.
  { unfold ToWireMsg, ToWireMsg_call, call_value_receiver, ToWireMsg_body. by rewrite Hh. }
  destruct (Marshal (ParentHeader msg)) as [e|p] eqn:Hp.
  { unfold ToWireMsg, ToWireMsg_call, call_value_receiver, ToWireMsg_body. by rewrite Hh, Hp. }
  destruct (Marshal (encoded_Metadata msg)) as [e|m] eqn:Hm.
  { unfold ToWireMsg, ToWireMsg_call, call_value_receiver, ToWireMsg_body.
    rewrite Hh, Hp. fold (defaulted msg). by rewrite defaulted_Metadata, Hm. }
  destruct (Marshal (Content msg)) as [e|c] eqn:Hc.
  { unfold ToWireMsg, ToWireMsg_call, call_value_receiver, ToWireMsg_body.
    rewrite Hh, Hp. fold (defaulted msg). rewrite defaulted_Metadata, Hm.
    destruct (defaulted_fields msg) as (_ & _ & ->). by rewrite Hc. }
  by apply ToWireMsg_ok.
Qed.

(** A successful [ToWireMsg] by its frames. *)
Lemma ToWireMsg_success msg signkey parts :
  ToWireMsg msg signkey = Ret (parts, None) →
  ∃ h p m c,
    Marshal (Header msg) = inr h ∧ Marshal (ParentHeader msg) = inr p ∧
    Marshal (encoded_Metadata msg) = inr m ∧ Marshal (Content msg) = inr c ∧
    parts = Slice [signature_part signkey h p m c; h; p; m; c] [].
Proof.
  rewrite ToWireMsg_cases. intros E.
  destruct (Marshal (Header msg)) as [?|h]; [congruence|].
  destruct (Marshal (ParentHeader msg)) as [?|p]; [congruence|].
  destruct (Marshal (encoded_Metadata msg)) as [?|m]; [congruence|].
  destruct (Marshal (Content msg)) as [?|c]; [congruence|].
  exists h, p, m, c. repeat (split; [done|]). congruence.
Qed.

Lemma fmt_x_hextable (src : bytes) : Forall (λ d, d ∈ hex.hextable) (uuid.fmt_x src).
Proof.
  induction src as [|v src IH]; [constructor|].
  change (uuid.fmt_x (v :: src)) with
    ([hex.digit (N.shiftr (byte_val v) 4); hex.digit (N.land (byte_val v) 15)] ++ uuid.fmt_x src).
  apply Forall_app_2; [|exact IH]. clear.
  destruct v as [[] [] [] [] [] [] [] []];
    (constructor; [|constructor; [|constructor]]);
    apply (bool_decide_unpack _); vm_compute; exact I.
Qed.

Lemma decoded_signature_fmt_x (mac : bytes) : decoded_signature (uuid.fmt_x mac) = mac.
Proof. unfold decoded_signature. by rewrite Decode_fresh. Qed.

Lemma decoded_signature_length sigpart :
  length (decoded_signature sigpart) = length sigpart / 2.
Proof.
  unfold decoded_signature, hex.Decode.
  destruct (Decode_from_returns sigpart (make zero_byte (hex.DecodedLen (length sigpart))) 0)
    as (l & n & err & -> & Hl).
  - unfold len, make, hex.DecodedLen. cbn [elems]. by rewrite length_replicate.
  - cbn [elems]. rewrite Hl. unfold len, make, hex.DecodedLen. cbn [elems].
    by rewrite length_replicate.
Qed.

Lemma decoded_signature_part signkey h p m c :
  signkey ≠ [] →
  decoded_signature (signature_part signkey h p m c) = signed_region_mac signkey h p m c.
Proof.
  intros Hk. unfold signature_part.
  destruct (decide (length signkey ≠ 0)) as [_|Hl]; [|by destruct signkey; [|contradict Hl]].
  apply decoded_signature_fmt_x.
Qed.

(** X1.  [ToWireMsg] always returns, and always five frames with no
    capacity beyond them, on success and with every error. *)
Theorem X1_ToWireMsg_five_frames msg signkey :
  ∃ parts err, ToWireMsg msg signkey = Ret (parts, err) ∧ len parts = 5 ∧ cap parts = 5.
Proof.
  rewrite ToWireMsg_cases.
  destruct (Marshal (Header msg)); [by eexists _, _|].
  destruct (Marshal (ParentHeader msg)); [by eexists _, _|].
  destruct (Marshal (encoded_Metadata msg)); [by eexists _, _|].
  destruct (Marshal (Content msg)); by eexists _, _.
Qed.

(** X2.  [ToWireMsg] stops at the first field that [json.Marshal] refuses,
    in the order header, parent header, metadata, content: the error is the
    library's, wrapped with the message of that field; the frames of the
    fields before it are filled, the others and the signature frame are
    left nil, whatever the key. *)
Theorem X2_ToWireMsg_first_failure msg signkey :
  (∀ e, Marshal (Header msg) = inl e →
     ToWireMsg msg signkey =
     Ret (Slice [[]; []; []; []; []] [],
          Some (Wrapped e "Could not marshal message header"))) ∧
  (∀ h e, Marshal (Header msg) = inr h → Marshal (ParentHeader msg) = inl e →
     ToWireMsg msg signkey =
     Ret (Slice [[]; h; []; []; []] [],
          Some (Wrapped e "Could not marshal parent header"))) ∧
  (∀ h p e, Marshal (Header msg) = inr h → Marshal (ParentHeader msg) = inr p →
     Marshal (encoded_Metadata msg) = inl e →
     ToWireMsg msg signkey =
     Ret (Slice [[]; h; p; []; []] [],
          Some (Wrapped e "Could not marshal metadata"))) ∧
  (∀ h p m e, Marshal (Header msg) = inr h → Marshal (ParentHeader msg) = inr p →
     Marshal (encoded_Metadata msg) = inr m → Marshal (Content msg) = inl e →
     ToWireMsg msg signkey =
     Ret (Slice [[]; h; p; m; []] [],
          Some (Wrapped e "Could not marshal content"))).
Proof.
  rewrite ToWireMsg_cases.
  split; [by intros e ->|]. split; [by intros h e -> ->|].
  split; [by intros h p e -> -> ->|]. by intros h p m e -> -> -> ->.
Qed.

(** X3.  The signature frame of a successful [ToWireMsg]: with the empty
    key it is empty; with any other key it is 64 lower-case hexadecimal
    digits, which [hex.Decode] turns back into the MAC of the four frames
    behind it. *)
Theorem X3_signature_frame msg signkey parts :
  ToWireMsg msg signkey = Ret (parts, None) →
  ∃ sigpart h p m c,
    elems parts = [sigpart; h; p; m; c] ∧
    if decide (signkey = []) then sigpart = []
    else length sigpart = 64 ∧ Forall (λ d, d ∈ hex.hextable) sigpart ∧
         decoded_signature sigpart = signed_region_mac signkey h p m c.
Proof.
  intros (h & p & m & c & _ & _ & _ & _ & ->)%ToWireMsg_success.
  exists (signature_part signkey h p m c), h, p, m, c. split; [done|].
  unfold signature_part.
  destruct (decide (signkey = [])) as [->|Hk].
  { by destruct (decide (length ([] : bytes) ≠ 0)). }
  destruct (decide (length signkey ≠ 0)) as [_|Hl]; [|by destruct signkey; [|contradict Hl]].
  split; [|split].
  - rewrite fmt_x_length. unfold signed_region_mac. by rewrite hmac_sha256_Size.
  - apply fmt_x_hextable.
  - apply decoded_signature_fmt_x.
Qed.

(** X4.  A nil metadata map and an empty one are encoded alike: the two
    messages give the same frames and the same error. *)
Theorem X4_nil_metadata_as_empty msg signkey :
  ToWireMsg (with_Metadata msg None) signkey = ToWireMsg (with_Metadata msg (Some ∅)) signkey.
Proof. by rewrite !ToWireMsg_cases. Qed.

(** X5.  The key decides the signature frame only: under two keys
    [ToWireMsg] returns the same error and the same four frames behind
    the first, and when it returns an error the same first frame too. *)
Theorem X5_key_only_signs msg signkey signkey' :
  ∃ parts parts' err,
    ToWireMsg msg signkey = Ret (parts, err) ∧
    ToWireMsg msg signkey' = Ret (parts', err) ∧
    drop 1 (elems parts) = drop 1 (elems parts') ∧
    (err ≠ None → parts = parts').
Proof.
  rewrite !ToWireMsg_cases.
  destruct (Marshal (Header msg)); [by eexists _, _, _|].
  destruct (Marshal (ParentHeader msg)); [by eexists _, _, _|].
  destruct (Marshal (encoded_Metadata msg)); [by eexists _, _, _|].
  destruct (Marshal (Content msg)); by eexists _, _, _.
Qed.

(** With the empty key and fewer than five frames behind the delimiter,
    the first index expression beyond the length panics. *)
Lemma WireMsgToComposedMsg_short_unsigned ids rest sp :
  no_delimiter ids → length rest < 5 →
  WireMsgToComposedMsg (Slice (ids ++ delimiter_part :: rest) sp) [] =
  Panic (IndexOutOfRange (length ids + 1 + max 1 (length rest)) (length ids + 1 + length rest)).
Proof.
  intros Hids Hlen. unfold WireMsgToComposedMsg. cbn [elems].
  rewrite scan_found by done. cbn [mbind outcome_bind bind]. rewrite Nat.add_0_l.
  rewrite reslice_prefix by (unfold len; cbn [elems]; rewrite length_app; lia).
  cbn [mbind outcome_bind bind].
  rewrite decide_False by (simpl; lia). cbn [mbind mret outcome_ret outcome_bind bind].
  rewrite !index_app_add.
  destruct rest as [|a [|b [|c [|d [|e rest]]]]]; simpl in Hlen; try lia;
    cbn [lookup list_lookup mbind outcome_bind bind length Nat.max]; do 2 f_equal; lia.
Qed.

(** What a returning call of the decoder has seen and what it returns. *)
Lemma WireMsgToComposedMsg_returns_inv (msgparts : slice bytes) signkey msg identities err :
  WireMsgToComposedMsg msgparts signkey = Ret (msg, identities, err) →
  ∃ ids rest,
    elems msgparts = ids ++ delimiter_part :: rest ∧ no_delimiter ids ∧
    ((err = Some InvalidSignatureError ∧ msg = zero_ComposedMsg ∧ identities = nil_slice ∧
      signkey ≠ []) ∨
     (err = None ∧
      ∃ sigpart h p m c extra,
        rest = sigpart :: h :: p :: m :: c :: extra ∧
        msg = unmarshalled h p m c ∧
        identities = Slice ids (delimiter_part :: rest ++ spare msgparts) ∧
        (signkey = [] ∨ decoded_signature sigpart = signed_region_mac signkey h p m c))).
Proof.
  destruct msgparts as [parts sp]. intros E.
  destruct (first_delimiter parts) as [Hno|(ids & rest & -> & Hids)].
  { by rewrite WireMsgToComposedMsg_no_delimiter in E. }
  exists ids, rest. split; [done|]. split; [done|].
  destruct (decide (length rest < 5)) as [Hlen|Hlen].
  { destruct signkey as [|k signkey].
    { by rewrite WireMsgToComposedMsg_short_unsigned in E. }
    destruct (WireMsgToComposedMsg_short ids rest sp (k :: signkey) Hids Hlen) as [[pn Hp]|Hr];
      [congruence|].
    left. rewrite Hr in E. by simplify_eq. }
  destruct rest as [|sigpart [|h [|p [|m [|c extra]]]]]; simpl in Hlen; try lia.
  rewrite WireMsgToComposedMsg_framed in E by done.
  case_decide as Hd; simplify_eq.
  - left. repeat (split; [done|]). destruct Hd as [Hd _]. by destruct signkey.
  - right. split; [done|]. exists sigpart, h, p, m, c, extra. repeat (split; [done|]).
    destruct signkey as [|k signkey]; [by left|right].
    destruct (decide (decoded_signature sigpart =
                      signed_region_mac (k :: signkey) h p m c)) as [|Hne]; [done|].
    contradict Hd. split; [simpl; lia|congruence].
Qed.

(** X6.  The decoder has one error: whenever it returns an error, the key
    is not empty, the error is [InvalidSignatureError], the message is the
    zero message and the identities are the nil slice.  A frame that
    [json.Unmarshal] or [hex.Decode] refuses gives no error of its own. *)
Theorem X6_only_error_is_invalid_signature (msgparts : slice bytes) signkey msg identities e :
  WireMsgToComposedMsg msgparts signkey = Ret (msg, identities, Some e) →
  e = InvalidSignatureError ∧ msg = zero_ComposedMsg ∧ identities = nil_slice ∧ signkey ≠ [].
Proof.
  intros (ids & rest & _ & _ & [(He & -> & -> & Hk)|(He & _)])%WireMsgToComposedMsg_returns_inv;
    [|done].
  by simplify_eq.
Qed.

(** X7.  What [ToWireMsg] signs, the decoder accepts: the frames of a
    successful [ToWireMsg], behind any identities and the delimiter and
    with any spare capacity, are decoded without error under the same
    key, into the message unmarshalled from the four marshalled fields and
    the identities put in front. *)
Theorem X7_signed_frames_accepted msg signkey parts ids sp :
  ToWireMsg msg signkey = Ret (parts, None) → no_delimiter ids →
  ∃ h p m c,
    Marshal (Header msg) = inr h ∧ Marshal (ParentHeader msg) = inr p ∧
    Marshal (encoded_Metadata msg) = inr m ∧ Marshal (Content msg) = inr c ∧
    WireMsgToComposedMsg (Slice (ids ++ delimiter_part :: elems parts) sp) signkey =
    Ret (unmarshalled h p m c, Slice ids (delimiter_part :: elems parts ++ sp), None).
Proof.
  intros (h & p & m & c & Hh & Hp & Hm & Hc & ->)%ToWireMsg_success Hids.
  exists h, p, m, c. repeat (split; [done|]). cbn [elems].
  rewrite WireMsgToComposedMsg_framed by done.
  rewrite decide_False; [done|]. intros [Hk Hne]. apply Hne.
  unfold signature_part. rewrite decide_True by done. by rewrite decoded_signature_fmt_x.
Qed.

(** X8.  With a non-empty key, a signature frame that does not hold 64 or
    65 bytes is rejected whatever it holds: the buffer it is decoded into
    has half its length, and the MAC has 32 bytes. *)
Theorem X8_signature_length ids sigpart h p m c extra sp signkey :
  signkey ≠ [] → no_delimiter ids → length sigpart / 2 ≠ 32 →
  WireMsgToComposedMsg
    (Slice (ids ++ delimiter_part :: sigpart :: h :: p :: m :: c :: extra) sp) signkey =
  Ret (zero_ComposedMsg, nil_slice, Some InvalidSignatureError).
Proof.
  intros Hk Hids Hlen. rewrite WireMsgToComposedMsg_framed by done.
  rewrite decide_True; [done|]. split; [by destruct signkey|].
  intros E. apply Hlen. rewrite <- decoded_signature_length, <- E.
  unfold signed_region_mac. apply hmac_sha256_Size.
Qed.

(** X9.  A message encoded without a key is rejected by every decoder
    that has one: its signature frame is empty. *)
Theorem X9_unsigned_rejected_with_key msg parts ids sp signkey :
  ToWireMsg msg [] = Ret (parts, None) → no_delimiter ids → signkey ≠ [] →
  WireMsgToComposedMsg (Slice (ids ++ delimiter_part :: elems parts) sp) signkey =
  Ret (zero_ComposedMsg, nil_slice, Some InvalidSignatureError).
Proof.
  intros (h & p & m & c & _ & _ & _ & _ & ->)%ToWireMsg_success Hids Hk. cbn [elems].
  rewrite WireMsgToComposedMsg_framed by done.
  rewrite decide_True; [done|]. split; [by destruct signkey|].
  intros E. apply (f_equal length) in E. revert E.
  rewrite decoded_signature_length. unfold signed_region_mac. rewrite hmac_sha256_Size.
  unfold signature_part. by rewrite decide_False by (simpl; lia).
Qed.

(** X10.  A message signed under one key and decoded under another
    non-empty key is accepted exactly when the two keys give the same MAC
    on the four frames, and is rejected with [InvalidSignatureError]
    otherwise. *)
Theorem X10_decoded_under_another_key msg signkey signkey' parts ids sp :
  ToWireMsg msg signkey = Ret (parts, None) →
  signkey ≠ [] → signkey' ≠ [] → no_delimiter ids →
  ∃ sigpart h p m c,
    elems parts = [sigpart; h; p; m; c] ∧
    WireMsgToComposedMsg (Slice (ids ++ delimiter_part :: elems parts) sp) signkey' =
    if decide (signed_region_mac signkey' h p m c = signed_region_mac signkey h p m c)
    then Ret (unmarshalled h p m c, Slice ids (delimiter_part :: elems parts ++ sp), None)
    else Ret (zero_ComposedMsg, nil_slice, Some InvalidSignatureError).
Proof.
  intros (h & p & m & c & _ & _ & _ & _ & ->)%ToWireMsg_success Hk Hk' Hids.
  exists (signature_part signkey h p m c), h, p, m, c. split; [done|]. cbn [elems].
  rewrite WireMsgToComposedMsg_framed by done.
  rewrite decoded_signature_part by done.
  destruct (decide (signed_region_mac signkey' h p m c = signed_region_mac signkey h p m c))
    as [E|E].
  - rewrite decide_False; [done|]. by intros [_ ?].
  - rewrite decide_True; [done|]. split; [by destruct signkey'|done].
Qed.

(** X11.  The signature covers the bytes of the four frames, not their
    boundaries: the MAC is fed the frames one after another, so two
    sequences whose four frames join to the same bytes are accepted or
    rejected together under every key and every signature frame. *)
Theorem X11_frame_boundaries_not_signed ids sigpart h p m c h' p' m' c' extra sp signkey :
  no_delimiter ids → h ++ p ++ m ++ c = h' ++ p' ++ m' ++ c' →
  ∀ err,
    (∃ msg identities,
       WireMsgToComposedMsg
         (Slice (ids ++ delimiter_part :: sigpart :: h :: p :: m :: c :: extra) sp) signkey =
       Ret (msg, identities, err)) ↔
    (∃ msg identities,
       WireMsgToComposedMsg
         (Slice (ids ++ delimiter_part :: sigpart :: h' :: p' :: m' :: c' :: extra) sp) signkey =
       Ret (msg, identities, err)).
Proof.
  intros Hids E err. rewrite !WireMsgToComposedMsg_framed by done.
  unfold signed_region_mac. rewrite E.
  case_decide; split; intros (msg & identities & Hr); simplify_eq; by eexists _, _.
Qed.

(** X12.  The identities returned by a successful decoding share the
    backing array of the sequence: they have its capacity, and the
    frames behind them, from the delimiter on, lie in their spare
    capacity. *)
Theorem X12_identities_alias_the_input (msgparts : slice bytes) signkey msg identities :
  WireMsgToComposedMsg msgparts signkey = Ret (msg, identities, None) →
  backing identities = backing msgparts ∧ cap identities = cap msgparts ∧
  len identities + 6 ≤ len msgparts ∧
  spare identities = drop (len identities) (elems msgparts) ++ spare msgparts.
Proof.
  intros (ids & rest & Hparts & _ & [(He & _)|(_ & Hok)])%WireMsgToComposedMsg_returns_inv;
    [done|].
  destruct Hok as (sigpart & h & p & m & c & extra & -> & _ & -> & _).
  unfold cap, backing, len. cbn [elems spare]. rewrite Hparts.
  rewrite drop_app_length. rewrite <- !app_assoc. cbn [app].
  split; [done|]. split; [done|]. split; [|done].
  rewrite length_app. simpl. lia.
Qed.

(** X13.  With the empty key and fewer than five frames behind the first
    delimiter, the decoder panics at the first frame it misses: the index
    is out of range at the length, or one beyond it when nothing follows
    the delimiter (the signature frame is never read). *)
Theorem X13_too_short_unsigned_panic ids rest sp :
  no_delimiter ids → length rest < 5 →
  WireMsgToComposedMsg (Slice (ids ++ delimiter_part :: rest) sp) [] =
  Panic (IndexOutOfRange (length ids + 1 + max 1 (length rest)) (length ids + 1 + length rest)).
Proof. apply WireMsgToComposedMsg_short_unsigned. Qed.

(** X14.  With a non-empty key, the four frames of the signed region are
    sliced before any of them is read: when the capacity ends before the
    fifth frame behind the delimiter, the decoder panics with slice
    bounds out of range, at the end of that region against the
    capacity. *)
Theorem X14_too_short_signed_panic ids rest sp signkey :
  no_delimiter ids → signkey ≠ [] → length rest + length sp < 5 →
  WireMsgToComposedMsg (Slice (ids ++ delimiter_part :: rest) sp) signkey =
  Panic (SliceBoundsOutOfRange (length ids + 6) (length ids + 1 + length rest + length sp)).
Proof. apply WireMsgToComposedMsg_short_cap. Qed.

(** The frames that a returning [SendResponse] has put on its socket. *)
Lemma SendResponse_frames (receipt : MsgReceipt) (socket : Socket) msg w w' :
  SendResponse receipt socket msg w = (Ret (), w') →
  ∃ calls h p m c,
    w' = after_calls w calls ∧
    Marshal (Header msg) = inr h ∧ Marshal (ParentHeader msg) = inr p ∧
    Marshal (encoded_Metadata msg) = inr m ∧ Marshal (Content msg) = inr c ∧
    frames_sent socket calls =
      elems (Identities receipt) ++
      delimiter_part :: [signature_part (Key (Sockets receipt)) h p m c; h; p; m; c].
Proof.
  intros E.
  destruct (ToWireMsg_returns msg (Key (Sockets receipt))) as (parts & [e|] & Hw & _).
  { rewrite (SendResponse_fatal _ _ _ _ _ _ Hw) in E. by simplify_eq. }
  rewrite (SendResponse_sent _ _ _ _ _ Hw) in E.
  destruct (ToWireMsg_success _ _ _ Hw) as (h & p & m & c & Hh & Hp & Hm & Hc & ->).
  eexists _, h, p, m, c. split; [by simplify_eq|]. repeat (split; [done|]).
  unfold frames_sent. cbn [mbind list_bind mapM elems]. simpl.
  rewrite !decide_True by done. by rewrite app_nil_r.
Qed.

(** X15.  What a returning [SendResponse] has put on its socket is a
    message for the peer that holds the key of the receipt: the identities
    of the receipt, the delimiter and the five frames of [ToWireMsg], which
    the decoder takes without error under that key, giving the message
    unmarshalled from the four marshalled fields and the identities of
    the receipt, when none of these is the delimiter. *)
Theorem X15_SendResponse_frames_decode (receipt : MsgReceipt) (socket : Socket) msg w w' :
  no_delimiter (elems (Identities receipt)) →
  SendResponse receipt socket msg w = (Ret (), w') →
  ∃ calls h p m c identities,
    w' = after_calls w calls ∧
    Marshal (Header msg) = inr h ∧ Marshal (ParentHeader msg) = inr p ∧
    Marshal (encoded_Metadata msg) = inr m ∧ Marshal (Content msg) = inr c ∧
    frames_sent socket calls =
      elems (Identities receipt) ++
      delimiter_part :: [signature_part (Key (Sockets receipt)) h p m c; h; p; m; c] ∧
    WireMsgToComposedMsg (of_list (frames_sent socket calls)) (Key (Sockets receipt)) =
      Ret (unmarshalled h p m c, identities, None) ∧
    elems identities = elems (Identities receipt).
Proof.
  intros Hids (calls & h & p & m & c & -> & Hh & Hp & Hm & Hc & Hf)%SendResponse_frames.
  eexists calls, h, p, m, c, _. repeat (split; [done|]).
  rewrite Hf. unfold of_list. rewrite WireMsgToComposedMsg_framed by done.
  rewrite decide_False; [done|]. intros [Hk Hne]. apply Hne.
  symmetry. apply decoded_signature_part. by destruct (Key (Sockets receipt)).
Qed.

(** X16.  A reply goes back to the sender of the request: when a decoded
    request is answered through [SendResponse] with the identities the
    decoder returned and the key it verified with, the frames put on the
    socket are decoded without error under that key, and with the same
    identities. *)
Theorem X16_reply_returns_to_sender (msgparts : slice bytes) signkey request identities
    (socket : Socket) msg w w' :
  WireMsgToComposedMsg msgparts signkey = Ret (request, identities, None) →
  SendResponse (mkMsgReceipt request identities (mkSocketGroup signkey)) socket msg w =
    (Ret (), w') →
  ∃ calls msg' identities',
    w' = after_calls w calls ∧
    WireMsgToComposedMsg (of_list (frames_sent socket calls)) signkey =
      Ret (msg', identities', None) ∧
    elems identities' = elems identities.
Proof.
  intros (ids & rest & _ & Hids & [(He & _)|(_ & Hok)])%WireMsgToComposedMsg_returns_inv;
    [done|].
  destruct Hok as (sigpart & h0 & p0 & m0 & c0 & extra & _ & _ & -> & _).
  intros (calls & h & p & m & c & -> & _ & _ & _ & _ & Hf)%SendResponse_frames.
  cbn [Identities Sockets Key elems] in Hf.
  eexists calls, _, _. split; [done|].
  rewrite Hf. unfold of_list. rewrite WireMsgToComposedMsg_framed by done.
  rewrite decide_False; [done|]. intros [Hk Hne]. apply Hne.
  symmetry. apply decoded_signature_part. by destruct signkey.
Qed.


(** X18.  Of its parent [NewMsg] takes the header only: two parents with
    the same header give the same result in every world; the message it
    returns has nil metadata and nil content, and the call has left the
    trace as it was. *)
Theorem X18_NewMsg_takes_the_header_only msgType parent parent' w :
  Header parent = Header parent' →
  NewMsg msgType parent w = NewMsg msgType parent' w ∧
  ∀ msg w', NewMsg msgType parent w = (Ret msg, w') →
    Metadata msg = None ∧ Content msg = any_nil ∧ trace w' = trace w.
Proof.
  intros E. split.
  - destruct (rand_source w (rand_calls w)).2 as [e|] eqn:Hr.
    + by rewrite !(NewMsg_failed _ _ _ e Hr).
    + rewrite !NewMsg_drawn by done. by rewrite E.
  - intros msg w'. destruct (rand_source w (rand_calls w)).2 as [e|] eqn:Hr.
    + by rewrite (NewMsg_failed _ _ _ e Hr).
    + rewrite NewMsg_drawn by done. intros [= <- <-]. done.
Qed.

(** X19.  A reply on the wire: the frames [ToWireMsg] makes of a message
    returned by [NewMsg] are the signature, the marshalled header of the
    reply (the id made from the read of the random source, the user name
    and the session of the parent, the given type), the marshalled header
    of the parent, the marshalled empty map and the marshalled nil
    content. *)
Theorem X19_reply_on_the_wire msgType parent w msg w' signkey parts :
  NewMsg msgType parent w = (Ret msg, w') →
  ToWireMsg msg signkey = Ret (parts, None) →
  ∃ h p m c,
    Marshal (mkMsgHeader (uuid.String (v4_of (drawn w))) (Username (Header parent))
                         (Session (Header parent)) msgType) = inr h ∧
    Marshal (Header parent) = inr p ∧
    Marshal (Some ∅ : option (gmap string any)) = inr m ∧
    Marshal any_nil = inr c ∧
    elems parts = [signature_part signkey h p m c; h; p; m; c].
Proof.
  destruct (rand_source w (rand_calls w)).2 as [e|] eqn:Hr.
  { by rewrite (NewMsg_failed _ _ _ e Hr). }
  rewrite NewMsg_drawn by done. intros [= <- <-].
  intros (h & p & m & c & Hh & Hp & Hm & Hc & ->)%ToWireMsg_success.
  by exists h, p, m, c.
Qed.

(** X20.  With a non-empty key, a sequence with five frames behind the
    first delimiter is rejected exactly when the buffer that [hex.Decode]
    has filled from the signature frame differs from the MAC of the four
    frames behind it: the result is then [InvalidSignatureError] with the
    zero message and nil identities, and otherwise the message unmarshalled
    from the four frames with no error. *)
Theorem X20_rejected_iff_mismatch ids sigpart h p m c extra sp signkey :
  signkey ≠ [] → no_delimiter ids →
  (decoded_signature sigpart ≠ signed_region_mac signkey h p m c →
   WireMsgToComposedMsg
     (Slice (ids ++ delimiter_part :: sigpart :: h :: p :: m :: c :: extra) sp) signkey =
   Ret (zero_ComposedMsg, nil_slice, Some InvalidSignatureError)) ∧
  (decoded_signature sigpart = signed_region_mac signkey h p m c →
   WireMsgToComposedMsg
     (Slice (ids ++ delimiter_part :: sigpart :: h :: p :: m :: c :: extra) sp) signkey =
   Ret (unmarshalled h p m c,
        Slice ids (delimiter_part :: sigpart :: h :: p :: m :: c :: extra ++ sp), None)).
Proof.
  intros Hk Hids. rewrite WireMsgToComposedMsg_framed by done. split; intros E.
  - rewrite decide_True; [done|]. split; [by destruct signkey|congruence].
  - rewrite decide_False; [done|]. intros [_ Hne]. congruence.
Qed.

End properties.

(** * The claims on concrete inputs *)

Section concrete.
Import vectors examples.
#[local] Existing Instance reference.

Ltac no_delimiter_here :=
  repeat (constructor; [let E := fresh in intros E; vm_compute in E; discriminate E|]);
  constructor.

Lemma no_delimiter_client : no_delimiter [client].
Proof. no_delimiter_here. Qed.

(** The reference implementation on known answers: the digest of [abc]
    (FIPS 180-4, B.1), a MAC under a key longer than a block, and the MAC of
    the concrete vector. *)
Lemma Sum256_abc :
  string_of_bytes (uuid.fmt_x (sha256.Sum256 (bytes_of_string "abc"))) =
  "ba7816bf8f01cfea414140de5dae2223b00361a396177a9cb410ff61f20015ad"%string.
Proof. by vm_compute. Qed.

Lemma hmac_long_key :
  string_of_bytes (uuid.fmt_x (sha256.hmac (replicate 131 (to_byte 170))
    (bytes_of_string "Test Using Larger Than Block-Size Key - Hash Key First"))) =
  "60e431591ee0b67f0d8a26aacbf5b77f8e0bc6213728c5140546040f0ee37f54"%string.
Proof. by vm_compute. Qed.

Lemma hmac_vector :
  string_of_bytes (uuid.fmt_x
    (signed_region_mac s3cr3t header_a_json zero_header_json empty_object x1_object)) =
  "593aefe7b4afe56dcb3d75aadf2f434fdb6466d887c96bf18ff6ca3fa18a5f51"%string.
Proof. by vm_compute. Qed.

(** [hex.Decode] on digits of both cases, on a bad digit and on a digit
    left over. *)
Lemma Decode_examples :
  decoded_signature (bytes_of_string "0aFf") = [to_byte 10; to_byte 255] ∧
  decoded_signature (bytes_of_string "0a0g41") = [to_byte 10; zero_byte; zero_byte] ∧
  decoded_signature (bytes_of_string "414") = [to_byte 65].
Proof. by vm_compute. Qed.

(** The concrete vector: the frames of [ToWireMsg] under the key [s3cr3t],
    with the signature frame equal to the digits of the MAC. *)
Lemma ToWireMsg_vector :
  ToWireMsg message_a s3cr3t =
  Ret (Slice [bytes_of_string "593aefe7b4afe56dcb3d75aadf2f434fdb6466d887c96bf18ff6ca3fa18a5f51";
              header_a_json; zero_header_json; empty_object; x1_object] [], None).
Proof. by vm_compute. Qed.

(** With a key and spare capacity behind two frames, the slice of the
    signed region reaches into the capacity and the signature is
    rejected. *)
Lemma spare_capacity_rejects_signature :
  WireMsgToComposedMsg
    (Slice [delimiter_part; bytes_of_string "00"; header_a_json] [[]; []; []]) s3cr3t =
  Ret (zero_ComposedMsg, nil_slice, Some InvalidSignatureError).
Proof.
  destruct (WireMsgToComposedMsg_short [] [bytes_of_string "00"; header_a_json] [[]; []; []]
              s3cr3t) as [[pn E]|E]; [constructor | simpl; lia | | exact E].
  apply (f_equal panicked) in E. vm_compute in E. discriminate E.
Qed.

(** C1, witness: two frames, none of them the delimiter. *)
Lemma C1_witness :
  no_delimiter (elems (of_list [client; empty_object])) ∧
  WireMsgToComposedMsg (of_list [client; empty_object]) s3cr3t =
  Panic (IndexOutOfRange 2 2).
Proof.
  assert (H : no_delimiter (elems (of_list [client; empty_object]))) by no_delimiter_here.
  split; [exact H | exact (C1_scan_without_delimiter_panics _ s3cr3t H)].
Defined.

(** C1, counterexample: on two frames without a delimiter the decoder
    panics; it returns nothing, so no error value either. *)
Lemma C1_counterexample :
  no_delimiter [client; empty_object] ∧
  panicked (WireMsgToComposedMsg (of_list [client; empty_object]) []) =
    Some (IndexOutOfRange 2 2) ∧
  ¬ ∃ msg identities err,
      WireMsgToComposedMsg (of_list [client; empty_object]) [] = Ret (msg, identities, Some err).
Proof.
  split; [no_delimiter_here|]. split; [by vm_compute|].
  intros (msg & identities & err & E).
  apply (f_equal panicked) in E. vm_compute in E. discriminate E.
Qed.

(** C2, at the failing input: the signature frame of the concrete vector
    with one more digit behind it.  The frame has 65 bytes and is not the
    text of the MAC, and [hex.Decode] reports [ErrLength] for it; the
    decoder drops that error, compares the 32 bytes decoded so far, and
    returns the message with no error. *)
Theorem C2_trailing_byte_accepted :
  length signature_a_and_one = 65 ∧
  signature_a_and_one ≠
    uuid.fmt_x (signed_region_mac s3cr3t header_a_json zero_header_json empty_object x1_object) ∧
  (∃ signature n,
     hex.Decode (make zero_byte (hex.DecodedLen (length signature_a_and_one)))
       signature_a_and_one = Ret (signature, n, Some ErrLength)) ∧
  WireMsgToComposedMsg
    (Slice ([client] ++ delimiter_part :: signature_a_and_one :: header_a_json ::
            zero_header_json :: empty_object :: x1_object :: []) [])
    s3cr3t =
  Ret (mkComposedMsg header_a zero_MsgHeader (Some ∅) (NumMap {[ "x"%string := 1%Z ]}),
       Slice [client] [delimiter_part; signature_a_and_one; header_a_json; zero_header_json;
                       empty_object; x1_object],
       None).
Proof.
  split; [by vm_compute|].
  split; [intros E; apply (f_equal length) in E; vm_compute in E; discriminate E|].
  split; [eexists _, _; by vm_compute|].
  rewrite (WireMsgToComposedMsg_framed [client] signature_a_and_one header_a_json
             zero_header_json empty_object x1_object [] [] s3cr3t no_delimiter_client).
  destruct (decide _) as [[_ Hne]|_]; [|reflexivity].
  exfalso. apply Hne. by vm_compute.
Qed.

(** C3, witness: the concrete vector, signed with [s3cr3t] and sent
    behind one identity. *)
Lemma C3_witness :
  no_delimiter [client] ∧
  round_trips zero_MsgHeader (Header message_a) ∧
  round_trips zero_MsgHeader (ParentHeader message_a) ∧
  round_trips None (encoded_Metadata message_a) ∧
  round_trips any_nil (Content message_a) ∧
  ∃ parts,
    ToWireMsg message_a s3cr3t = Ret (parts, None) ∧
    WireMsgToComposedMsg (Slice ([client] ++ delimiter_part :: elems parts) []) s3cr3t =
    Ret (mkComposedMsg (Header message_a) (ParentHeader message_a)
           (encoded_Metadata message_a) (Content message_a),
         Slice [client] (delimiter_part :: elems parts), None).
Proof.
  assert (H1 : round_trips zero_MsgHeader (Header message_a))
    by (exists header_a_json; split; reflexivity).
  assert (H2 : round_trips zero_MsgHeader (ParentHeader message_a))
    by (exists zero_header_json; split; reflexivity).
  assert (H3 : round_trips None (encoded_Metadata message_a))
    by (exists empty_object; split; reflexivity).
  assert (H4 : round_trips any_nil (Content message_a))
    by (exists x1_object; split; reflexivity).
  split; [exact no_delimiter_client|]. do 4 (split; [assumption|]).
  exact (C3_round_trip message_a s3cr3t [client] no_delimiter_client H1 H2 H3 H4).
Defined.

(** C3, counterexample: the zero message, whose metadata is nil, comes
    back with the empty map; and a message whose content is a channel is
    not encoded at all. *)
Lemma C3_counterexample :
  (∃ parts msg identities,
     ToWireMsg zero_ComposedMsg [] = Ret (parts, None) ∧
     WireMsgToComposedMsg (Slice (delimiter_part :: elems parts) []) [] =
       Ret (msg, identities, None) ∧
     Metadata zero_ComposedMsg = None ∧ Metadata msg = Some ∅) ∧
  (∃ parts e, ToWireMsg unencodable s3cr3t = Ret (parts, Some e)).
Proof.
  split.
  - eexists _, _, _. split; [|split].
    + by apply (ToWireMsg_ok zero_ComposedMsg [] zero_header_json zero_header_json
                  empty_object (bytes_of_string "null")).
    + cbn [elems]. etransitivity.
      { exact (WireMsgToComposedMsg_framed [] _ zero_header_json zero_header_json
                 empty_object (bytes_of_string "null") [] [] [] ltac:(constructor)). }
      reflexivity.
    + split; reflexivity.
  - eexists _, _. by vm_compute.
Qed.

(** C4, witness: six frames after the delimiter, and two. *)
Lemma C4_witness :
  no_delimiter [client] ∧
  (∃ msg identities identities' err,
     WireMsgToComposedMsg
       (Slice ([client] ++ delimiter_part ::
               [[]; header_a_json; zero_header_json; empty_object; x1_object; garbage]) [])
       [] = Ret (msg, identities, err) ∧
     WireMsgToComposedMsg
       (Slice ([client] ++ delimiter_part ::
               take 5 [[]; header_a_json; zero_header_json; empty_object; x1_object; garbage]) [])
       [] = Ret (msg, identities', err) ∧
     elems identities = elems identities') ∧
  ((∃ pn, WireMsgToComposedMsg
            (Slice ([client] ++ delimiter_part :: [[]; header_a_json]) []) s3cr3t = Panic pn) ∨
   s3cr3t ≠ [] ∧ 5 ≤ length [[]; header_a_json] + length ([] : list bytes) ∧
   WireMsgToComposedMsg (Slice ([client] ++ delimiter_part :: [[]; header_a_json]) []) s3cr3t =
     Ret (zero_ComposedMsg, nil_slice, Some InvalidSignatureError)).
Proof.
  split; [exact no_delimiter_client|]. split.
  - apply (C4_frames_after_delimiter [client]
             [[]; header_a_json; zero_header_json; empty_object; x1_object; garbage] [] []
             no_delimiter_client). simpl. lia.
  - apply (C4_frames_after_delimiter [client] [[]; header_a_json] [] s3cr3t
             no_delimiter_client). simpl. lia.
Defined.

(** C4, counterexample: a delimiter followed by two frames; the decoder
    panics at the index of the missing third, and returns no error. *)
Lemma C4_counterexample :
  panicked (WireMsgToComposedMsg (of_list [delimiter_part; []; header_a_json]) []) =
    Some (IndexOutOfRange 3 3) ∧
  ¬ ∃ msg identities err,
      WireMsgToComposedMsg (of_list [delimiter_part; []; header_a_json]) [] =
      Ret (msg, identities, Some err).
Proof.
  split; [by vm_compute|]. intros (msg & identities & err & E).
  apply (f_equal panicked) in E. vm_compute in E. discriminate E.
Qed.

(** C5, at the failing input: a header frame that is not JSON.  Its
    [json.Unmarshal] reports an error, and the decoder returns a message
    with the zero header and no error. *)
Theorem C5_decode_failure_not_surfaced :
  (Unmarshal garbage zero_MsgHeader).2 =
    Some (LibError "invalid character looking for beginning of value") ∧
  WireMsgToComposedMsg
    (Slice ([client] ++ delimiter_part :: [] :: garbage :: zero_header_json ::
            empty_object :: x1_object :: []) [])
    [] =
  Ret (mkComposedMsg zero_MsgHeader zero_MsgHeader (Some ∅) (NumMap {[ "x"%string := 1%Z ]}),
       Slice [client] [delimiter_part; []; garbage; zero_header_json; empty_object; x1_object],
       None).
Proof.
  split; [reflexivity|].
  rewrite (WireMsgToComposedMsg_drops_decode_errors [client] [] garbage zero_header_json
             empty_object x1_object [] []
             (LibError "invalid character looking for beginning of value"))
    by (exact no_delimiter_client || (left; reflexivity)).
  reflexivity.
Qed.


(** C7, witness: an empty signature frame and one that is not hexadecimal. *)
Lemma C7_witness :
  no_delimiter [client] ∧
  WireMsgToComposedMsg
    (Slice ([client] ++ delimiter_part :: [] :: header_a_json :: zero_header_json ::
            empty_object :: x1_object :: []) []) [] =
    Ret (unmarshalled header_a_json zero_header_json empty_object x1_object,
         Slice [client] (delimiter_part :: [] :: header_a_json :: zero_header_json ::
                         empty_object :: x1_object :: [] ++ []), None) ∧
  WireMsgToComposedMsg
    (Slice ([client] ++ delimiter_part :: garbage :: header_a_json :: zero_header_json ::
            empty_object :: x1_object :: []) []) [] =
    Ret (unmarshalled header_a_json zero_header_json empty_object x1_object,
         Slice [client] (delimiter_part :: garbage :: header_a_json :: zero_header_json ::
                         empty_object :: x1_object :: [] ++ []), None).
Proof.
  split; [exact no_delimiter_client|].
  exact (C7_unsigned_skips_verification [client] [] garbage header_a_json zero_header_json
           empty_object x1_object [] [] no_delimiter_client).
Defined.

(** C8, witness: one identity before the signed concrete vector. *)
Lemma C8_witness :
  no_delimiter [client] ∧
  decoded_signature
    (bytes_of_string "593aefe7b4afe56dcb3d75aadf2f434fdb6466d887c96bf18ff6ca3fa18a5f51") =
    signed_region_mac s3cr3t header_a_json zero_header_json empty_object x1_object ∧
  ∃ msg identities,
    WireMsgToComposedMsg
      (Slice ([client] ++ delimiter_part ::
              [bytes_of_string "593aefe7b4afe56dcb3d75aadf2f434fdb6466d887c96bf18ff6ca3fa18a5f51";
               header_a_json; zero_header_json; empty_object; x1_object]) []) s3cr3t =
      Ret (msg, identities, None) ∧
    elems identities = [client].
Proof.
  assert (Hsig : decoded_signature
    (bytes_of_string "593aefe7b4afe56dcb3d75aadf2f434fdb6466d887c96bf18ff6ca3fa18a5f51") =
    signed_region_mac s3cr3t header_a_json zero_header_json empty_object x1_object)
    by (by vm_compute).
  split; [exact no_delimiter_client|]. split; [exact Hsig|].
  exact (proj2 (C8_identities (Slice ([client] ++ delimiter_part :: _) []) s3cr3t)
           [client] _ _ _ _ _ [] eq_refl no_delimiter_client (or_intror Hsig)).
Defined.

(** C9, witness: a reply to the concrete vector, drawn from zero bytes. *)
Lemma C9_witness :
  (rand_source zeros_world (rand_calls zeros_world)).2 = None ∧
  ∃ msg,
    NewMsg "execute_reply" message_a zeros_world = (Ret msg, after_draw zeros_world) ∧
    ParentHeader msg = Header message_a ∧
    Session (Header msg) = "s" ∧ Username (Header msg) = "u" ∧
    MsgType (Header msg) = "execute_reply" ∧
    MsgID (Header msg) = "00000000-0000-4000-4000-000000000000".
Proof.
  split; [reflexivity|].
  destruct (C9_NewMsg_header "execute_reply" message_a zeros_world eq_refl)
    as (msg & E & Hp & Hs & Hu & Ht & Hid & _).
  exists msg. do 5 (split; [assumption|]). rewrite Hid. by vm_compute.
Defined.

(** C9, counterexample: a parent whose id is the text of the UUID that this
    call draws; the reply has the same id.  And with a failing random
    source the call returns no message at all. *)
Lemma C9_counterexample :
  (∃ msg w',
     NewMsg "execute_reply" zero_uuid_parent zeros_world = (Ret msg, w') ∧
     MsgID (Header msg) = MsgID (Header zero_uuid_parent)) ∧
  (NewMsg "execute_reply" message_a broken_world).1 = Exit 1.
Proof.
  split.
  - eexists _, _. split; [by apply NewMsg_drawn|].
    cbn [Header MsgID zero_uuid_parent]. by vm_compute.
  - by rewrite (NewMsg_failed _ _ _ (LibError "unexpected EOF")).
Qed.

(** C10, witness: the zero message, whose metadata is nil. *)
Lemma C10_witness :
  Metadata zero_ComposedMsg = None ∧
  ∃ parts err,
    ToWireMsg_call zero_ComposedMsg s3cr3t = Ret (zero_ComposedMsg, (parts, err)) ∧
    call_pointer_receiver (ToWireMsg_body s3cr3t) zero_ComposedMsg =
      Ret (with_Metadata zero_ComposedMsg (Some ∅), (parts, err)) ∧
    elems parts !! 3 = Some empty_object ∧
    Metadata zero_ComposedMsg = None.
Proof.
  split; [reflexivity|].
  exact (proj2 (C10_ToWireMsg_keeps_callers_value zero_ComposedMsg s3cr3t)
           zero_header_json zero_header_json empty_object eq_refl eq_refl eq_refl eq_refl).
Defined.

(** The concrete vector through the encoder, the decoder and
    [SendResponse], and a reply through [NewMsg] and the encoder. *)
Lemma ToWireMsg_frames_a : ToWireMsg message_a s3cr3t = Ret (frames_a, None).
Proof. by vm_compute. Qed.

Lemma ToWireMsg_unsigned_frames_a : ToWireMsg message_a [] = Ret (unsigned_frames_a, None).
Proof. by vm_compute. Qed.

Lemma decode_frames_a :
  WireMsgToComposedMsg (Slice ([client] ++ delimiter_part :: elems frames_a) []) s3cr3t =
  Ret (message_a, identities_a, None).
Proof.
  cbn [elems frames_a].
  rewrite (WireMsgToComposedMsg_framed [client] signature_a header_a_json zero_header_json
             empty_object x1_object [] [] s3cr3t no_delimiter_client).
  destruct (decide _) as [[_ Hne]|_]; [|reflexivity].
  exfalso. apply Hne. by vm_compute.
Qed.

Lemma SendResponse_frames_a :
  SendResponse receipt_a 0 message_a zeros_world =
  (Ret (), after_calls zeros_world
     [SendMultipart 0 [client] zmq_SNDMORE;
      Send 0 (bytes_of_string "<IDS|MSG>") zmq_SNDMORE;
      SendMultipart 0 (elems frames_a) 0;
      LoggerPrintln ["<--"; MsgType (Header message_a)];
      LoggerPrintf format_v (Content message_a)]).
Proof. by rewrite (SendResponse_sent receipt_a 0 message_a zeros_world frames_a ToWireMsg_frames_a). Qed.

Lemma SendResponse_reply_a :
  SendResponse (mkMsgReceipt message_a identities_a (mkSocketGroup s3cr3t)) 0 message_a
    zeros_world =
  (Ret (), after_calls zeros_world
     [SendMultipart 0 [client] zmq_SNDMORE;
      Send 0 (bytes_of_string "<IDS|MSG>") zmq_SNDMORE;
      SendMultipart 0 (elems frames_a) 0;
      LoggerPrintln ["<--"; MsgType (Header message_a)];
      LoggerPrintf format_v (Content message_a)]).
Proof.
  by rewrite (SendResponse_sent (mkMsgReceipt message_a identities_a (mkSocketGroup s3cr3t)) 0
                message_a zeros_world frames_a ToWireMsg_frames_a).
Qed.

Lemma NewMsg_reply_r :
  NewMsg "execute_reply" request_r zeros_world_r = (Ret reply_r, after_draw zeros_world_r).
Proof.
  assert (Hid : uuid.String (v4_of (drawn zeros_world_r)) =
                "00000000-0000-4000-4000-000000000000"%string) by (by vm_compute).
  rewrite NewMsg_drawn by reflexivity. rewrite Hid. reflexivity.
Qed.

Lemma ToWireMsg_reply_r :
  ToWireMsg reply_r s3cr3t =
  Ret (Slice [@signature_part replying s3cr3t reply_header_json header_a_json empty_object
                (json_text "null");
              reply_header_json; header_a_json; empty_object; json_text "null"] [], None).
Proof.
  apply (ToWireMsg_ok reply_r s3cr3t reply_header_json header_a_json empty_object
           (json_text "null")); by vm_compute.
Qed.

(** X2, witness: a message whose content is a channel. *)
Lemma X2_witness :
  Marshal (Header unencodable) = inr header_a_json ∧
  Marshal (ParentHeader unencodable) = inr zero_header_json ∧
  Marshal (encoded_Metadata unencodable) = inr empty_object ∧
  Marshal (Content unencodable) = inl (LibError "json: unsupported type") ∧
  ToWireMsg unencodable s3cr3t =
  Ret (Slice [[]; header_a_json; zero_header_json; empty_object; []] [],
       Some (Wrapped (LibError "json: unsupported type") "Could not marshal content")).
Proof.
  do 4 (split; [reflexivity|]).
  exact (proj2 (proj2 (proj2 (X2_ToWireMsg_first_failure unencodable s3cr3t)))
           header_a_json zero_header_json empty_object (LibError "json: unsupported type")
           eq_refl eq_refl eq_refl eq_refl).
Defined.

(** X3, witness: the concrete vector under the key [s3cr3t]. *)
Lemma X3_witness :
  ToWireMsg message_a s3cr3t = Ret (frames_a, None) ∧
  ∃ sigpart h p m c,
    elems frames_a = [sigpart; h; p; m; c] ∧
    if decide (s3cr3t = []) then sigpart = []
    else length sigpart = 64 ∧ Forall (λ d, d ∈ hex.hextable) sigpart ∧
         decoded_signature sigpart = signed_region_mac s3cr3t h p m c.
Proof.
  split; [exact ToWireMsg_frames_a|].
  exact (X3_signature_frame message_a s3cr3t frames_a ToWireMsg_frames_a).
Defined.

(** X6, witness: a signature frame that is rejected. *)
Lemma X6_witness :
  WireMsgToComposedMsg
    (Slice [delimiter_part; bytes_of_string "00"; header_a_json] [[]; []; []]) s3cr3t =
  Ret (zero_ComposedMsg, nil_slice, Some InvalidSignatureError) ∧
  InvalidSignatureError = InvalidSignatureError ∧
  @zero_ComposedMsg reference = zero_ComposedMsg ∧
  @nil_slice bytes = nil_slice ∧ s3cr3t ≠ [].
Proof.
  split; [exact spare_capacity_rejects_signature|].
  exact (X6_only_error_is_invalid_signature _ _ _ _ _ spare_capacity_rejects_signature).
Defined.

(** X7, witness: the concrete vector behind one identity. *)
Lemma X7_witness :
  ToWireMsg message_a s3cr3t = Ret (frames_a, None) ∧ no_delimiter [client] ∧
  ∃ h p m c,
    Marshal (Header message_a) = inr h ∧ Marshal (ParentHeader message_a) = inr p ∧
    Marshal (encoded_Metadata message_a) = inr m ∧ Marshal (Content message_a) = inr c ∧
    WireMsgToComposedMsg (Slice ([client] ++ delimiter_part :: elems frames_a) []) s3cr3t =
    Ret (unmarshalled h p m c, Slice [client] (delimiter_part :: elems frames_a ++ []), None).
Proof.
  split; [exact ToWireMsg_frames_a|]. split; [exact no_delimiter_client|].
  exact (X7_signed_frames_accepted message_a s3cr3t frames_a [client] []
           ToWireMsg_frames_a no_delimiter_client).
Defined.

(** X8, witness: a signature frame of two digits. *)
Lemma X8_witness :
  s3cr3t ≠ [] ∧ no_delimiter [client] ∧ length (bytes_of_string "00") / 2 ≠ 32 ∧
  WireMsgToComposedMsg
    (Slice ([client] ++ delimiter_part :: bytes_of_string "00" :: header_a_json ::
            zero_header_json :: empty_object :: x1_object :: []) []) s3cr3t =
  Ret (zero_ComposedMsg, nil_slice, Some InvalidSignatureError).
Proof.
  assert (H1 : s3cr3t ≠ []) by discriminate.
  assert (H3 : length (bytes_of_string "00") / 2 ≠ 32) by (vm_compute; lia).
  split; [exact H1|]. split; [exact no_delimiter_client|]. split; [exact H3|].
  exact (X8_signature_length [client] _ _ _ _ _ [] [] s3cr3t H1 no_delimiter_client H3).
Defined.

(** X9, witness: the concrete vector encoded without a key. *)
Lemma X9_witness :
  ToWireMsg message_a [] = Ret (unsigned_frames_a, None) ∧ no_delimiter [client] ∧
  s3cr3t ≠ [] ∧
  WireMsgToComposedMsg (Slice ([client] ++ delimiter_part :: elems unsigned_frames_a) [])
    s3cr3t =
  Ret (zero_ComposedMsg, nil_slice, Some InvalidSignatureError).
Proof.
  assert (H1 : s3cr3t ≠ []) by discriminate.
  split; [exact ToWireMsg_unsigned_frames_a|]. split; [exact no_delimiter_client|].
  split; [exact H1|].
  exact (X9_unsigned_rejected_with_key message_a unsigned_frames_a [client] [] s3cr3t
           ToWireMsg_unsigned_frames_a no_delimiter_client H1).
Defined.

(** X10, witness: the concrete vector decoded under another key. *)
Lemma X10_witness :
  ToWireMsg message_a s3cr3t = Ret (frames_a, None) ∧
  s3cr3t ≠ [] ∧ another_key ≠ [] ∧ no_delimiter [client] ∧
  ∃ sigpart h p m c,
    elems frames_a = [sigpart; h; p; m; c] ∧
    WireMsgToComposedMsg (Slice ([client] ++ delimiter_part :: elems frames_a) []) another_key =
    if decide (signed_region_mac another_key h p m c = signed_region_mac s3cr3t h p m c)
    then Ret (unmarshalled h p m c, Slice [client] (delimiter_part :: elems frames_a ++ []),
              None)
    else Ret (zero_ComposedMsg, nil_slice, Some InvalidSignatureError).
Proof.
  assert (H1 : s3cr3t ≠ []) by discriminate.
  assert (H2 : another_key ≠ []) by discriminate.
  split; [exact ToWireMsg_frames_a|]. split; [exact H1|]. split; [exact H2|].
  split; [exact no_delimiter_client|].
  exact (X10_decoded_under_another_key message_a s3cr3t another_key frames_a [client] []
           ToWireMsg_frames_a H1 H2 no_delimiter_client).
Defined.

(** X11, witness: the header and the parent header in one frame. *)
Lemma X11_witness :
  no_delimiter [client] ∧
  header_a_json ++ zero_header_json ++ empty_object ++ x1_object =
    (header_a_json ++ zero_header_json) ++ [] ++ empty_object ++ x1_object ∧
  ∀ err,
    (∃ msg identities,
       WireMsgToComposedMsg
         (Slice ([client] ++ delimiter_part :: signature_a :: header_a_json ::
                 zero_header_json :: empty_object :: x1_object :: []) []) s3cr3t =
       Ret (msg, identities, err)) ↔
    (∃ msg identities,
       WireMsgToComposedMsg
         (Slice ([client] ++ delimiter_part :: signature_a ::
                 (header_a_json ++ zero_header_json) :: [] :: empty_object :: x1_object :: [])
                []) s3cr3t =
       Ret (msg, identities, err)).
Proof.
  assert (H2 : header_a_json ++ zero_header_json ++ empty_object ++ x1_object =
    (header_a_json ++ zero_header_json) ++ [] ++ empty_object ++ x1_object)
    by (by vm_compute).
  split; [exact no_delimiter_client|]. split; [exact H2|].
  exact (X11_frame_boundaries_not_signed [client] signature_a _ _ _ _ _ _ _ _ [] [] s3cr3t
           no_delimiter_client H2).
Defined.

(** X12, witness: the concrete vector behind one identity. *)
Lemma X12_witness :
  WireMsgToComposedMsg (Slice ([client] ++ delimiter_part :: elems frames_a) []) s3cr3t =
    Ret (message_a, identities_a, None) ∧
  backing identities_a = backing (Slice ([client] ++ delimiter_part :: elems frames_a) []) ∧
  cap identities_a = cap (Slice ([client] ++ delimiter_part :: elems frames_a) []) ∧
  len identities_a + 6 ≤ len (Slice ([client] ++ delimiter_part :: elems frames_a) []) ∧
  spare identities_a =
    drop (len identities_a) (elems (Slice ([client] ++ delimiter_part :: elems frames_a) []))
    ++ spare (Slice ([client] ++ delimiter_part :: elems frames_a) []).
Proof.
  split; [exact decode_frames_a|].
  exact (X12_identities_alias_the_input _ s3cr3t message_a identities_a decode_frames_a).
Defined.

(** X13, witness: one frame behind the delimiter. *)
Lemma X13_witness :
  no_delimiter [client] ∧ length [empty_object] < 5 ∧
  WireMsgToComposedMsg (Slice ([client] ++ delimiter_part :: [empty_object]) []) [] =
  Panic (IndexOutOfRange (length [client] + 1 + max 1 (length [empty_object]))
                         (length [client] + 1 + length [empty_object])).
Proof.
  assert (H2 : length [empty_object] < 5) by (simpl; lia).
  split; [exact no_delimiter_client|]. split; [exact H2|].
  exact (X13_too_short_unsigned_panic [client] [empty_object] [] no_delimiter_client H2).
Defined.

(** X14, witness: two frames behind the delimiter and a spare one. *)
Lemma X14_witness :
  no_delimiter [client] ∧ s3cr3t ≠ [] ∧
  length [signature_a; header_a_json] + length [zero_header_json] < 5 ∧
  WireMsgToComposedMsg
    (Slice ([client] ++ delimiter_part :: [signature_a; header_a_json]) [zero_header_json])
    s3cr3t =
  Panic (SliceBoundsOutOfRange (length [client] + 6)
           (length [client] + 1 + length [signature_a; header_a_json] +
            length [zero_header_json])).
Proof.
  assert (H2 : s3cr3t ≠ []) by discriminate.
  assert (H3 : length [signature_a; header_a_json] + length [zero_header_json] < 5)
    by (simpl; lia).
  split; [exact no_delimiter_client|]. split; [exact H2|]. split; [exact H3|].
  exact (X14_too_short_signed_panic [client] [signature_a; header_a_json] [zero_header_json]
           s3cr3t no_delimiter_client H2 H3).
Defined.

(** X15, witness: the concrete vector sent to one identity. *)
Lemma X15_witness :
  no_delimiter (elems (Identities receipt_a)) ∧
  SendResponse receipt_a 0 message_a zeros_world =
    (Ret (), after_calls zeros_world
       [SendMultipart 0 [client] zmq_SNDMORE;
        Send 0 (bytes_of_string "<IDS|MSG>") zmq_SNDMORE;
        SendMultipart 0 (elems frames_a) 0;
        LoggerPrintln ["<--"; MsgType (Header message_a)];
        LoggerPrintf format_v (Content message_a)]) ∧
  ∃ calls identities,
    WireMsgToComposedMsg (of_list (frames_sent 0 calls)) (Key (Sockets receipt_a)) =
      Ret (message_a, identities, None) ∧
    elems identities = [client].
Proof.
  split; [exact no_delimiter_client|]. split; [exact SendResponse_frames_a|].
  destruct (X15_SendResponse_frames_decode receipt_a 0 message_a zeros_world _
              no_delimiter_client SendResponse_frames_a)
    as (calls & h & p & m & c & identities & _ & Hh & Hp & Hm & Hc & _ & E & Hids).
  exists calls, identities. split; [|exact Hids].
  rewrite E. injection Hh as <-. injection Hp as <-. injection Hm as <-. injection Hc as <-.
  reflexivity.
Defined.

(** X16, witness: the decoded concrete vector, answered with itself. *)
Lemma X16_witness :
  WireMsgToComposedMsg (Slice ([client] ++ delimiter_part :: elems frames_a) []) s3cr3t =
    Ret (message_a, identities_a, None) ∧
  SendResponse (mkMsgReceipt message_a identities_a (mkSocketGroup s3cr3t)) 0 message_a
    zeros_world =
    (Ret (), after_calls zeros_world
       [SendMultipart 0 [client] zmq_SNDMORE;
        Send 0 (bytes_of_string "<IDS|MSG>") zmq_SNDMORE;
        SendMultipart 0 (elems frames_a) 0;
        LoggerPrintln ["<--"; MsgType (Header message_a)];
        LoggerPrintf format_v (Content message_a)]) ∧
  ∃ calls msg' identities',
    WireMsgToComposedMsg (of_list (frames_sent 0 calls)) s3cr3t =
      Ret (msg', identities', None) ∧
    elems identities' = [client].
Proof.
  split; [exact decode_frames_a|]. split; [exact SendResponse_reply_a|].
  destruct (X16_reply_returns_to_sender _ s3cr3t message_a identities_a 0 message_a
              zeros_world _ decode_frames_a SendResponse_reply_a)
    as (calls & msg' & identities' & _ & E & Hids).
  exists calls, msg', identities'. split; [exact E|exact Hids].
Defined.

(** X18, witness: two parents with the header of the concrete vector. *)
Lemma X18_witness :
  Header message_a = Header unencodable ∧
  NewMsg "execute_reply" message_a zeros_world =
    NewMsg "execute_reply" unencodable zeros_world.
Proof.
  split; [reflexivity|].
  exact (proj1 (X18_NewMsg_takes_the_header_only "execute_reply" message_a unencodable
                  zeros_world eq_refl)).
Defined.

(** X19, witness: a reply drawn from zero bytes, under the key [s3cr3t]. *)
Lemma X19_witness :
  NewMsg "execute_reply" request_r zeros_world_r = (Ret reply_r, after_draw zeros_world_r) ∧
  ∃ h p m c,
    Marshal (Header request_r) = inr p ∧
    Marshal (Some ∅ : option (gmap string (@any replying))) = inr m ∧
    Marshal (@any_nil replying) = inr c ∧
    ToWireMsg reply_r s3cr3t =
      Ret (Slice [@signature_part replying s3cr3t h p m c; h; p; m; c] [], None).
Proof.
  split; [exact NewMsg_reply_r|].
  destruct (X19_reply_on_the_wire "execute_reply" request_r zeros_world_r reply_r _ s3cr3t _
              NewMsg_reply_r ToWireMsg_reply_r) as (h & p & m & c & _ & Hp & Hm & Hc & E).
  exists h, p, m, c. do 3 (split; [assumption|]).
  rewrite ToWireMsg_reply_r. cbn [elems] in E. by rewrite E.
Defined.

(** X20, witness: the signature frame [00], and the frame of the concrete
    vector. *)
Lemma X20_witness :
  s3cr3t ≠ [] ∧ no_delimiter [client] ∧
  decoded_signature (bytes_of_string "00") ≠
    signed_region_mac s3cr3t header_a_json zero_header_json empty_object x1_object ∧
  decoded_signature signature_a =
    signed_region_mac s3cr3t header_a_json zero_header_json empty_object x1_object ∧
  WireMsgToComposedMsg
    (Slice ([client] ++ delimiter_part :: bytes_of_string "00" :: header_a_json ::
            zero_header_json :: empty_object :: x1_object :: []) []) s3cr3t =
    Ret (zero_ComposedMsg, nil_slice, Some InvalidSignatureError) ∧
  WireMsgToComposedMsg
    (Slice ([client] ++ delimiter_part :: signature_a :: header_a_json ::
            zero_header_json :: empty_object :: x1_object :: []) []) s3cr3t =
    Ret (unmarshalled header_a_json zero_header_json empty_object x1_object,
         Slice [client] (delimiter_part :: signature_a :: header_a_json ::
                         zero_header_json :: empty_object :: x1_object :: [] ++ []), None).
Proof.
  assert (H1 : s3cr3t ≠ []) by discriminate.
  assert (H3 : decoded_signature (bytes_of_string "00") ≠
    signed_region_mac s3cr3t header_a_json zero_header_json empty_object x1_object)
    by (vm_compute; intros E; discriminate E).
  assert (H4 : decoded_signature signature_a =
    signed_region_mac s3cr3t header_a_json zero_header_json empty_object x1_object)
    by (by vm_compute).
  split; [exact H1|]. split; [exact no_delimiter_client|]. split; [exact H3|].
  split; [exact H4|]. split.
  - exact (proj1 (X20_rejected_iff_mismatch [client] (bytes_of_string "00") header_a_json
                    zero_header_json empty_object x1_object [] [] s3cr3t H1
                    no_delimiter_client) H3).
  - exact (proj2 (X20_rejected_iff_mismatch [client] signature_a header_a_json
                    zero_header_json empty_object x1_object [] [] s3cr3t H1
                    no_delimiter_client) H4).
Defined.

End concrete.
